(** * browse-ocrd: the PAGE-XML overlay renderer and its region map

    A shallow embedding of [ocrd_browser/model/page_xml_renderer.py]:
    [get_breadcrumbs], [RegionMap], [Operation], [Operations] and
    [PageXmlRenderer], followed by the properties of the rendering and
    hit-testing engine.

    Python dictionaries are [gmap]s, the [defaultdict]s are written out
    (a missing key is inserted on lookup), exceptions are an explicit
    outcome, the renderer object is threaded as state.  The geometry
    library (shapely) and the coordinate mapper (ocrd_utils) are not part
    of the repository: they are interfaces. *)

From Stdlib Require Import QArith.
From stdpp Require Import gmap strings list sorting.

Local Open Scope string_scope.
Local Open Scope list_scope.
Local Open Scope stdpp_scope.

(** ** Python values used by the module *)

(** Exceptions: the module only ever names [ValueError]; everything else
    is carried by its class name. *)
Inductive exn : Type :=
| ValueError (msg : string)
| OtherError (cls msg : string).

(** [str(err)] *)
Definition str_of_exn (e : exn) : string :=
  match e with
  | ValueError msg => msg
  | OtherError _ msg => msg
  end.

Inductive outcome (A : Type) : Type :=
| Return (a : A)
| Raise (e : exn).
Arguments Return {A} a.
Arguments Raise {A} e.

(** [s[:n]] on strings: Python clips at the end of the string, and so does
    [substring]. *)
Definition str_take (n : nat) (s : string) : string := String.substring 0 n s.

(** [s[:-n]] *)
Definition str_drop_last (n : nat) (s : string) : string :=
  String.substring 0 (String.length s - n) s.

(** [s.replace(old, '')]: the non-overlapping occurrences of [old] are
    removed, scanning from the left.  [skip] counts the characters of the
    occurrence that are still to be dropped. *)
Fixpoint str_remove_aux (old : string) (skip : nat) (s : string) : string :=
  match s with
  | EmptyString => EmptyString
  | String c s' =>
      match skip with
      | S k => str_remove_aux old k s'
      | O =>
          if String.prefix old s
          then str_remove_aux old (String.length old - 1) s'
          else String c (str_remove_aux old 0 s')
      end
  end.

Definition str_remove (old s : string) : string :=
  match old with
  | EmptyString => s
  | _ => str_remove_aux old 0 s
  end.

(** The double quote character, and ['"%s"' % s]. *)
Definition dquote : string :=
  String (Ascii.Ascii false true false false false true false false)
         EmptyString.
Definition quoted (s : string) : string := dquote +:+ s +:+ dquote.

(** [a or b] for an optional list: [None] and the empty list are falsy. *)
Definition py_or {A : Type} (a : option (list A)) (b : list A) : list A :=
  match a with
  | None => b
  | Some [] => b
  | Some l => l
  end.

(** Floats are modelled by the rational numbers they denote. *)
Definition float_lt (a b : Q) : bool := negb (Qle_bool b a).

(** ** The PAGE classes of [ocrd_models.ocrd_page] *)

Inductive PageClass : Type :=
| PcGtsType | PageType | BorderType | PrintSpaceType
| AdvertRegionType | ChartRegionType | ChemRegionType | CustomRegionType
| GraphicRegionType | ImageRegionType | LineDrawingRegionType
| MapRegionType | MathsRegionType | MusicRegionType | NoiseRegionType
| SeparatorRegionType | TableRegionType | TextRegionType
| UnknownRegionType
| TextLineType | WordType | GlyphType | GraphemeType.

Global Instance PageClass_eq_dec : EqDecision PageClass.
Proof. solve_decision. Defined.

(** [cls.__name__] *)
Definition __name__ (c : PageClass) : string :=
  match c with
  | PcGtsType => "PcGtsType" | PageType => "PageType"
  | BorderType => "BorderType" | PrintSpaceType => "PrintSpaceType"
  | AdvertRegionType => "AdvertRegionType"
  | ChartRegionType => "ChartRegionType"
  | ChemRegionType => "ChemRegionType"
  | CustomRegionType => "CustomRegionType"
  | GraphicRegionType => "GraphicRegionType"
  | ImageRegionType => "ImageRegionType"
  | LineDrawingRegionType => "LineDrawingRegionType"
  | MapRegionType => "MapRegionType"
  | MathsRegionType => "MathsRegionType"
  | MusicRegionType => "MusicRegionType"
  | NoiseRegionType => "NoiseRegionType"
  | SeparatorRegionType => "SeparatorRegionType"
  | TableRegionType => "TableRegionType"
  | TextRegionType => "TextRegionType"
  | UnknownRegionType => "UnknownRegionType"
  | TextLineType => "TextLineType" | WordType => "WordType"
  | GlyphType => "GlyphType" | GraphemeType => "GraphemeType"
  end.

(** An element of the PAGE tree, as far as the renderer reads it: its
    class, its [id] attribute (absent on Border and PrintSpace), its
    subtype ([get_type()]), the points of its [Coords] and the link to its
    parent.  [parent_object_] is an attribute that may be missing
    ([hasattr] is false), hold [None], or hold the parent element. *)
Inductive Element : Type :=
| mkElement (class_ : PageClass) (id_ : option string)
    (type_ : option string) (Coords : list (Z * Z))
    (parent_object_ : Link)
with Link : Type :=
| NoAttribute
| IsNone
| Ref (parent : Element).

Definition class_ (e : Element) : PageClass :=
  match e with mkElement c _ _ _ _ => c end.
Definition id_ (e : Element) : option string :=
  match e with mkElement _ i _ _ _ => i end.
Definition type_ (e : Element) : option string :=
  match e with mkElement _ _ t _ _ => t end.
Definition Coords (e : Element) : list (Z * Z) :=
  match e with mkElement _ _ _ p _ => p end.
Definition parent_object_ (e : Element) : Link :=
  match e with mkElement _ _ _ _ l => l end.

(** The containers the walk descends into: a word owns glyphs, a line
    owns words, a region owns lines. *)
Record WordT : Type := mkWord { word_el : Element; Glyph : list Element }.
Record TextLineT : Type :=
  mkTextLine { line_el : Element; Word : list WordT }.
Record RegionT : Type :=
  mkRegion { region_el : Element; TextLine : list TextLineT }.

(** [RegionWithCoords = Union[RegionType, TextLineType, WordType,
    GlyphType, GraphemeType, PrintSpaceType, BorderType]] *)
Inductive RegionWithCoords : Type :=
| ARegion (r : RegionT)
| ATextLine (l : TextLineT)
| AWord (w : WordT)
| AGlyph (g : Element)
| APrintSpace (e : Element)
| ABorder (e : Element).

Definition element (r : RegionWithCoords) : Element :=
  match r with
  | ARegion r => region_el r
  | ATextLine l => line_el l
  | AWord w => word_el w
  | AGlyph g => g
  | APrintSpace e => e
  | ABorder e => e
  end.

(** [type(region)] *)
Definition type (r : RegionWithCoords) : PageClass := class_ (element r).

(** What [PageType] offers to [render_all]: [get_PrintSpace()],
    [get_Border()] (either may be [None]) and
    [get_AllRegions(order='reading-order')]. *)
Record PageT : Type := mkPage {
  page_el : Element;
  PrintSpace : option Element;
  Border : option Element;
  AllRegions : list RegionT
}.

Record PcGtsT : Type := mkPcGts { Page : PageT }.

(** ** get_breadcrumbs *)

(** The list built by the [while hasattr(region, 'parent_object_')] loop,
    before it is reversed: the region first, then every value found by
    following [parent_object_] ([None] included, which has no such
    attribute and ends the loop). *)
Fixpoint breadcrumbs_up (region : Element) : list (option Element) :=
  match region with
  | mkElement _ _ _ _ l =>
      Some region ::
        match l with
        | NoAttribute => []
        | IsNone => [None]
        | Ref parent => breadcrumbs_up parent
        end
  end.

Definition get_breadcrumbs (region : RegionWithCoords)
  : list (option Element) :=
  reverse (breadcrumbs_up (element region)).

(** ** The collaborators *)

(** shapely, as far as the module calls it.  [Polygon_new] is the
    constructor [Polygon(points)], which may raise; [bounds] is
    [(minx, miny, maxx, maxy)]; [exterior_coords] is
    [poly.exterior.coords], a closed ring; [contains poly (x, y)] is
    [poly.contains(Point(x, y))]. *)
Class Shapely : Type := {
  Polygon : Type;
  Polygon_new : list (Z * Z) -> outcome Polygon;
  is_valid : Polygon -> bool;
  explain_validity : Polygon -> string;
  is_empty : Polygon -> bool;
  bounds : Polygon -> Q * Q * Q * Q;
  length : Polygon -> Q;
  exterior_coords : Polygon -> list (Q * Q);
  contains : Polygon -> Q * Q -> bool
}.

(** ocrd_utils: [coordinates_of_segment(segment, parent_image,
    parent_coords)] resolves the element's [Coords] into canvas pixel
    space; [Transform] is the type of [parent_coords].  The image
    argument is not modelled, the mapper does not read its pixels. *)
Class OcrdUtils : Type := {
  Transform : Type;
  coordinates_of_segment : Element -> Transform -> list (Z * Z)
}.

(** PIL, symbolically: an image is the list of layers alpha-composited
    onto the base so far, a layer the list of polygons drawn on it. *)
Record Drawn : Type := mkDrawn {
  drawn_xy : list (Q * Q);
  drawn_fill : string;
  drawn_outline : string
}.
Definition ImageDraw : Type := list Drawn.
Definition Image : Type := list ImageDraw.

(** [draw.polygon(xy, fill, outline)] *)
Definition draw_polygon (draw : ImageDraw) (xy : list (Q * Q))
  (fill outline : string) : ImageDraw :=
  draw ++ [mkDrawn xy fill outline].

(** [canvas.alpha_composite(layer)] *)
Definition alpha_composite (canvas : Image) (layer : ImageDraw) : Image :=
  canvas ++ [layer].

(** [l[:-1]] *)
Definition drop_last {A : Type} (l : list A) : list A :=
  take (List.length l - 1) l.

(** The order of [sorted(..., reverse=True)] on depths. *)
Definition descending : relation nat := λ a b, (b ≤ a)%nat.

Global Instance descending_dec : RelDecision descending :=
  λ a b, decide (b ≤ a)%nat.

(** bounds[0], bounds[1] *)
Definition minx (b : Q * Q * Q * Q) : Q := b.1.1.1.
Definition miny (b : Q * Q * Q * Q) : Q := b.1.1.2.

Section Renderer.
Context {G : Shapely} {U : OcrdUtils}.

(** ** RegionMap *)

Definition RegionAndPoly : Type := Polygon * RegionWithCoords.

(** The object is its [region_nodes] list. *)
Definition RegionMap : Type := list RegionAndPoly.

Definition RegionMap_append (self : RegionMap) (poly : Polygon)
  (region : RegionWithCoords) : RegionMap :=
  self ++ [(poly, region)].

(** The [for poly, region in self.region_nodes] loop of [find_region]. *)
Fixpoint find_region_loop (region_nodes : list RegionAndPoly) (p : Q * Q)
  (ignore_regions : list PageClass) : option RegionWithCoords :=
  match region_nodes with
  | [] => None
  | (poly, region) :: rest =>
      if contains poly p && negb (bool_decide (type region ∈ ignore_regions))
      then Some region
      else find_region_loop rest p ignore_regions
  end.

Definition find_region (self : RegionMap) (x y : Q)
  (ignore_regions : option (list PageClass)) : option RegionWithCoords :=
  let ignore_regions := py_or ignore_regions [BorderType; PrintSpaceType] in
  let p := (x, y) in
  find_region_loop self p ignore_regions.

(** ** Operation and PolygonOperation *)

Record Operation : Type := mkOperation {
  poly : Polygon;
  region : RegionWithCoords;
  fill : string;
  outline : string
}.

Definition depth (self : Operation) : nat :=
  List.length (get_breadcrumbs (region self)).

Definition PolygonOperation_paint (self : Operation) (draw : ImageDraw)
  (regions : RegionMap) : ImageDraw * RegionMap :=
  let xy := drop_last (exterior_coords (poly self)) in
  let draw := draw_polygon draw xy (fill self) (outline self) in
  (draw, RegionMap_append regions (poly self) (region self)).

(** ** Operations *)

(** [self.operations], a [defaultdict(list)] from depth to operations. *)
Definition Operations_append (self : gmap nat (list Operation))
  (op : Operation) : gmap nat (list Operation) :=
  <[depth op := default [] (self !! depth op) ++ [op]]> self.

(** [sorted(self.operations, reverse=True)] *)
Definition sorted_reverse (keys : list nat) : list nat :=
  merge_sort descending keys.

Definition layers (self : gmap nat (list Operation))
  : list (nat * list Operation) :=
  (λ layer, (layer, default [] (self !! layer)))
    <$> sorted_reverse (elements (dom self)).

(** The inner loop of [paint]: every operation of one layer. *)
Definition paint_layer (operations : list Operation) (draw : ImageDraw)
  (regions : RegionMap) : ImageDraw * RegionMap :=
  foldl (λ '(draw, regions) operation,
           PolygonOperation_paint operation draw regions)
        (draw, regions) operations.

(** [Operations.paint]: the composited canvas, the region map, and the
    batch after [self.operations.clear()]. *)
Definition Operations_paint (self : gmap nat (list Operation))
  (canvas : Image) : Image * RegionMap * gmap nat (list Operation) :=
  let '(canvas, regions) :=
    foldl (λ '(canvas, regions) '(depth, operations),
             let layer : ImageDraw := [] in
             let '(draw, regions) := paint_layer operations layer regions in
             (alpha_composite canvas draw, regions))
          (canvas, []) (layers self) in
  (canvas, regions, ∅).

(** ** PageXmlRenderer *)

(** The built-in colour table. *)
Definition CLASSES : gmap string string :=
  list_to_map [
    (EmptyString, "FFFFFF00");
    ("Glyph", "2E8B08FF");
    ("Word", "B22222FF");
    ("TextLine", "32CD32FF");
    ("Border", "FFFFFFFF");
    ("PrintSpace", "CCCCCCFF");
    ("TableRegion", "8B4513FF");
    ("AdvertRegion", "4682B4FF");
    ("ChemRegion", "FF8C00FF");
    ("MusicRegion", "9400D3FF");
    ("MapRegion", "9ACDD2FF");
    ("TextRegion", "0000FFFF");
    ("TextRegion:paragraph", "0000FFFA");
    ("TextRegion:heading", "0000FFF5");
    ("TextRegion:caption", "0000FFF0");
    ("TextRegion:header", "0000FFEB");
    ("TextRegion:footer", "0000FFE6");
    ("TextRegion:page-number", "0000FFE1");
    ("TextRegion:drop-capital", "0000FFDC");
    ("TextRegion:credit", "0000FFD7");
    ("TextRegion:floating", "0000FFD2");
    ("TextRegion:signature-mark", "0000FFCD");
    ("TextRegion:catch-word", "0000FFC8");
    ("TextRegion:marginalia", "0000FFC3");
    ("TextRegion:footnote", "0000FFBE");
    ("TextRegion:footnote-continued", "0000FFB9");
    ("TextRegion:endnote", "0000FFB4");
    ("TextRegion:TOC-entry", "0000FFAF");
    ("TextRegion:list-label", "0000FFA5");
    ("TextRegion:other", "0000FFA0");
    ("ChartRegion", "800080FF");
    ("ChartRegion:bar", "800080FA");
    ("ChartRegion:line", "800080F5");
    ("ChartRegion:pie", "800080F0");
    ("ChartRegion:scatter", "800080EB");
    ("ChartRegion:surface", "800080E6");
    ("ChartRegion:other", "800080E1");
    ("GraphicRegion", "008000FF");
    ("GraphicRegion:logo", "008000FA");
    ("GraphicRegion:letterhead", "008000F0");
    ("GraphicRegion:decoration", "008000EB");
    ("GraphicRegion:frame", "008000E6");
    ("GraphicRegion:handwritten-annotation", "008000E1");
    ("GraphicRegion:stamp", "008000DC");
    ("GraphicRegion:signature", "008000D7");
    ("GraphicRegion:barcode", "008000D2");
    ("GraphicRegion:paper-grow", "008000CD");
    ("GraphicRegion:punch-hole", "008000C8");
    ("GraphicRegion:other", "008000C3");
    ("ImageRegion", "00CED1FF");
    ("LineDrawingRegion", "B8860BFF");
    ("MathsRegion", "00BFFFFF");
    ("NoiseRegion", "FF0000FF");
    ("SeparatorRegion", "FF00FFFF");
    ("UnknownRegion", "646464FF");
    ("CustomRegion", "637C81FF")
  ].

(** The fields of the renderer object.  [logger] holds the lines written
    through [self.logger.error], [colors] is the [defaultdict] whose
    factory returns ['FF0000FF']. *)
Record PageXmlRenderer : Type := mkPageXmlRenderer {
  canvas : Image;
  coords : Transform;
  page_id : string;
  colors : gmap string string;
  logger : list string;
  operations : gmap nat (list Operation)
}.

(** [dict.update(other)] *)
Definition dict_update (self other : gmap string string)
  : gmap string string := other ∪ self.

(** [colors or CLASSES]: [None] and the empty dict are falsy. *)
Definition colors_or (colors : option (gmap string string))
  (classes : gmap string string) : gmap string string :=
  match colors with
  | None => classes
  | Some c => if decide (c = ∅) then classes else c
  end.

(** [PageXmlRenderer.__init__], with the logger starting empty. *)
Definition PageXmlRenderer_init (canvas : Image) (coords : Transform)
  (page_id : string) (colors : option (gmap string string))
  : PageXmlRenderer :=
  {| canvas := canvas;
     coords := coords;
     page_id := page_id;
     colors := dict_update ∅ (colors_or colors CLASSES);
     logger := [];
     operations := ∅ |}.

(** Methods run on the renderer object and either return or raise; the
    object keeps what was written to it before an exception. *)
Definition M (A : Type) : Type :=
  PageXmlRenderer -> outcome A * PageXmlRenderer.

#[global] Instance M_ret : MRet M := λ A a self, (Return a, self).

#[global] Instance M_bind : MBind M := λ A B f m self,
  match m self with
  | (Return a, self') => f a self'
  | (Raise e, self') => (Raise e, self')
  end.

Definition raise {A : Type} (e : exn) : M A := λ self, (Raise e, self).

(** [for x in l: body] *)
Fixpoint for_each {A : Type} (l : list A) (body : A -> M unit) : M unit :=
  match l with
  | [] => mret tt
  | x :: l' => body x ;; for_each l' body
  end.

(** [self.colors[key]]: a missing key is given the factory's value, which
    is stored in the dict. *)
Definition colors_getitem (key : string) : M string := λ self,
  match colors self !! key with
  | Some color => (Return color, self)
  | None =>
      (Return "FF0000FF",
       {| canvas := canvas self; coords := coords self;
          page_id := page_id self;
          colors := <[key := "FF0000FF"]> (colors self);
          logger := logger self; operations := operations self |})
  end.

(** [self.operations.append(op)] *)
Definition operations_append (op : Operation) : M unit := λ self,
  (Return tt,
   {| canvas := canvas self; coords := coords self;
      page_id := page_id self; colors := colors self;
      logger := logger self;
      operations := Operations_append (operations self) op |}).

(** [self.logger.error('Page "%s" %s %s', self.page_id, tag, reason)] *)
Definition logger_error (tag reason : string) : M unit := λ self,
  (Return tt,
   {| canvas := canvas self; coords := coords self;
      page_id := page_id self; colors := colors self;
      logger := logger self ++
        ["Page " +:+ quoted (page_id self) +:+ " " +:+ tag +:+ " "
           +:+ reason];
      operations := operations self |}).

(** The body of the [try], once the polygon exists: the reason for
    rejecting it, empty when there is none. *)
Definition validity_reason (poly : Polygon) : string :=
  if negb (is_valid poly) then explain_validity poly
  else if is_empty poly then "is empty"
  else if float_lt (minx (bounds poly)) 0 || float_lt (miny (bounds poly)) 0
       then "is negative"
  else if float_lt (length poly) 4 then "has too few points"
  else EmptyString.

(** The [try ... except ValueError as err] block: the values of [poly]
    and [reason] after it, or the exception it lets through. *)
Definition try_polygon (polygon : list (Z * Z))
  : outcome (option Polygon * string) :=
  match Polygon_new polygon with
  | Return poly => Return (Some poly, validity_reason poly)
  | Raise (ValueError msg) => Return (None, str_of_exn (ValueError msg))
  | Raise e => Raise e
  end.

Definition segment_poly (segment : RegionWithCoords) : M (option Polygon) :=
  λ self,
  let polygon := coordinates_of_segment (element segment) (coords self) in
  match try_polygon polygon with
  | Raise e => (Raise e, self)
  | Return (poly, reason) =>
      if bool_decide (reason ≠ EmptyString) then
        let tag := str_remove "Type" (__name__ (type segment)) in
        let tag :=
          match id_ (element segment) with
          | Some i => tag +:+ " " +:+ quoted i
          | None => tag
          end in
        (logger_error tag reason ;; mret None) self
      else (Return poly, self)
  end.

Definition plot_segment (poly : Polygon) (region : RegionWithCoords)
  : M unit :=
  (* Remove 'Type' for lookup *)
  let region_type := str_drop_last 4 (__name__ (type region)) in
  color ← colors_getitem region_type;
  (* draw segment *)
  let op := mkOperation poly region
              ("#" +:+ str_take 6 color +:+ "1E")
              ("#" +:+ str_take 6 color +:+ "96") in
  operations_append op.

(** [isinstance(region, TextRegionType)] *)
Definition isinstance_TextRegionType (region : RegionWithCoords) : bool :=
  match region with
  | ARegion r => bool_decide (class_ (region_el r) = TextRegionType)
  | _ => false
  end.

(** [region.get_TextLine()], called on text regions only. *)
Definition get_TextLine (region : RegionWithCoords) : list TextLineT :=
  match region with
  | ARegion r => TextLine r
  | _ => []
  end.

(** Truth value of the result of [segment_poly]: [None] is falsy, and a
    shapely geometry is truthy unless it is empty. *)
Definition truthy (poly : option Polygon) : bool :=
  match poly with
  | None => false
  | Some p => negb (is_empty p)
  end.

(** The body of [render_type].  [render_type] and [render_text_region]
    call each other; [descend] stands for the call of
    [self.render_text_region]. *)
Definition render_type_body (descend : RegionWithCoords -> M unit)
  (region : option RegionWithCoords) : M unit :=
  match region with
  | None => mret tt
  | Some region =>
      poly ← segment_poly region;
      match poly with
      | Some p =>
          if truthy poly then
            plot_segment p region ;;
            if isinstance_TextRegionType region
            then descend region
            else mret tt
          else mret tt
      | None => mret tt
      end
  end.

(** Lines, words and glyphs are no text regions: the calls of
    [render_type] made here never come back to [render_text_region], so
    the knot is tied with a [descend] that is never run (see
    [render_text_region_calls_render_type]). *)
Definition render_text_region (text_region : RegionWithCoords) : M unit :=
  for_each (get_TextLine text_region) (λ line,
    render_type_body (λ _, mret tt) (Some (ATextLine line)) ;;
    for_each (Word line) (λ word,
      render_type_body (λ _, mret tt) (Some (AWord word)) ;;
      for_each (Glyph word) (λ glyph,
        render_type_body (λ _, mret tt) (Some (AGlyph glyph))))).

Definition render_type (region : option RegionWithCoords) : M unit :=
  render_type_body render_text_region region.

Definition render_all (pc_gts : PcGtsT) : M unit :=
  let page := Page pc_gts in
  render_type (APrintSpace <$> PrintSpace page) ;;
  render_type (ABorder <$> Border page) ;;
  for_each (AllRegions page) (λ region, render_type (Some (ARegion region))).

Definition get_canvas (self : PageXmlRenderer)
  : Image * RegionMap * PageXmlRenderer :=
  let '(canvas', regions, operations') :=
    Operations_paint (operations self) (canvas self) in
  (canvas', regions,
   {| canvas := canvas self; coords := coords self;
      page_id := page_id self; colors := colors self;
      logger := logger self; operations := operations' |}).

End Renderer.

(** ** The colour lookup as the specification words it *)

(** "If a subtype is present, first attempt "Type:subtype", else fall
    back to "Type"; if neither is registered, return the default fallback
    color."  This definition follows the specification, not the code. *)
Definition spec_color_for (table : gmap string string) (type : string)
  (subtype : option string) : string :=
  match subtype with
  | Some sub =>
      match table !! (type +:+ ":" +:+ sub) with
      | Some color => color
      | None => default "FF0000FF" (table !! type)
      end
  | None => default "FF0000FF" (table !! type)
  end.

(** ** The order of the walk *)

(** The nodes [render_all] reaches when nothing is rejected, in the order
    it reaches them. *)
Definition walk_word (word : WordT) : list RegionWithCoords :=
  AWord word :: (AGlyph <$> Glyph word).

Definition walk_line (line : TextLineT) : list RegionWithCoords :=
  ATextLine line :: (Word line ≫= walk_word).

Definition walk_region (r : RegionT) : list RegionWithCoords :=
  ARegion r ::
    if isinstance_TextRegionType (ARegion r)
    then TextLine r ≫= walk_line
    else [].

Definition walk (pc_gts : PcGtsT) : list RegionWithCoords :=
  let page := Page pc_gts in
  option_list (APrintSpace <$> PrintSpace page)
    ++ option_list (ABorder <$> Border page)
    ++ (AllRegions page ≫= walk_region).

(** Depth of a region, as [Operation.depth] computes it. *)
Definition region_depth (r : RegionWithCoords) : nat :=
  List.length (get_breadcrumbs r).

(** A list regrouped by depth, the deepest group first, every group in
    the order of the list; [n] bounds the depths looked at. *)
Definition by_depth_descending {A : Type} (d : A -> nat) (n : nat)
  (l : list A) : list A :=
  reverse (seq 0 n) ≫= (λ k, filter (λ x, d x = k) l).

Definition max_depth {A : Type} (d : A -> nat) (l : list A) : nat :=
  foldr (λ x m, d x `max` m) 0%nat l.

(** The order of the region map of a page on which nothing is rejected. *)
Definition reference_order (pc_gts : PcGtsT) : list RegionWithCoords :=
  let l := walk pc_gts in
  by_depth_descending region_depth (S (max_depth region_depth l)) l.

(** ** Vocabulary of the properties *)

(** The ignore set a caller of [find_region] means: the one passed, or
    the default when none is passed. *)
Definition default_ignore : list PageClass := [BorderType; PrintSpaceType].

Definition ignore_set (ignore_regions : option (list PageClass))
  : list PageClass :=
  default default_ignore ignore_regions.

Section Vocabulary.
Context {G : Shapely} {U : OcrdUtils}.

(** An entry of the region map matches a query. *)
Definition matches (p : Q * Q) (ignore : list PageClass)
  (e : RegionAndPoly) : Prop :=
  contains e.1 p = true ∧ type e.2 ∉ ignore.

(** The entry an operation leaves in the region map. *)
Definition entry (op : Operation) : RegionAndPoly := (poly op, region op).

(** What [PolygonOperation.paint] draws. *)
Definition drawn (op : Operation) : Drawn :=
  mkDrawn (drop_last (exterior_coords (poly op))) (fill op) (outline op).

(** What one layer of [layers] contributes to the canvas and to the
    region map. *)
Definition layer_drawn (layer : nat * list Operation) : ImageDraw :=
  drawn <$> layer.2.
Definition layer_entries (layer : nat * list Operation) : RegionMap :=
  entry <$> layer.2.

(** The batch after the operations of [l] were appended, in this order,
    to an empty one. *)
Definition batch (l : list Operation) : gmap nat (list Operation) :=
  foldl Operations_append ∅ l.

(** A polygon that passes every test of [segment_poly]. *)
Definition validated (poly : Polygon) : Prop :=
  is_valid poly = true ∧ is_empty poly = false
  ∧ (0 <= minx (bounds poly))%Q ∧ (0 <= miny (bounds poly))%Q
  ∧ (4 <= length poly)%Q.

(** Why [segment_poly] rejects the points [polygon] with [reason]: one
    case for the exception and one for each test, in the order of the
    tests. *)
Definition rejected_for (polygon : list (Z * Z)) (reason : string) : Prop :=
  Polygon_new polygon = Raise (ValueError reason)
  ∨ ∃ p, Polygon_new polygon = Return p
      ∧ ((is_valid p = false ∧ reason = explain_validity p)
         ∨ (is_valid p = true ∧ is_empty p = true ∧ reason = "is empty")
         ∨ (is_valid p = true ∧ is_empty p = false
            ∧ ((minx (bounds p) < 0)%Q ∨ (miny (bounds p) < 0)%Q)
            ∧ reason = "is negative")
         ∨ (is_valid p = true ∧ is_empty p = false
            ∧ (0 <= minx (bounds p))%Q ∧ (0 <= miny (bounds p))%Q
            ∧ (length p < 4)%Q ∧ reason = "has too few points")).

(** The tag of a segment in the log: its class name without ['Type'],
    followed by its quoted id when it has one. *)
Definition log_tag (segment : RegionWithCoords) : string :=
  let tag := str_remove "Type" (__name__ (type segment)) in
  match id_ (element segment) with
  | Some i => tag +:+ " " +:+ quoted i
  | None => tag
  end.

(** The line [segment_poly] writes for a rejected segment. *)
Definition log_line (self : PageXmlRenderer) (segment : RegionWithCoords)
  (reason : string) : string :=
  "Page " +:+ quoted (page_id self) +:+ " " +:+ log_tag segment +:+ " "
    +:+ reason.

(** The renderer after one more line in its log. *)
Definition logged (self : PageXmlRenderer) (line : string)
  : PageXmlRenderer :=
  {| canvas := canvas self; coords := coords self;
     page_id := page_id self; colors := colors self;
     logger := logger self ++ [line]; operations := operations self |}.

(** The operation [plot_segment] builds from a table colour. *)
Definition operation_of (poly : Polygon) (region : RegionWithCoords)
  (color : string) : Operation :=
  mkOperation poly region ("#" +:+ str_take 6 color +:+ "1E")
                          ("#" +:+ str_take 6 color +:+ "96").

(** The key under which [plot_segment] looks a region up. *)
Definition color_key (region : RegionWithCoords) : string :=
  str_drop_last 4 (__name__ (type region)).

(** What a method may do to the renderer while it walks the nodes [w]:
    canvas, transform and page id stay, the colour table only gains
    fallback entries for the keys of nodes of [w], the log only grows, and
    the batch receives operations for a subsequence of [w]. *)
Definition extends (w : list RegionWithCoords)
  (self self' : PageXmlRenderer) : Prop :=
  canvas self' = canvas self ∧ coords self' = coords self
  ∧ page_id self' = page_id self
  ∧ colors self ⊆ colors self'
  ∧ (∀ k v, colors self' !! k = Some v → colors self !! k = None →
       v = "FF0000FF" ∧ ∃ r, r ∈ w ∧ k = color_key r)
  ∧ logger self `prefix_of` logger self'
  ∧ ∃ l, operations self' = foldl Operations_append (operations self) l
         ∧ region <$> l `sublist_of` w.

Definition walks {A : Type} (m : M A) (w : list RegionWithCoords) : Prop :=
  ∀ self, extends w self (m self).2.

(** The region map of a render pass: [render_all] on a fresh renderer,
    then [get_canvas]. *)
Definition render_pass (canvas : Image) (coords : Transform)
  (page_id : string) (colors : option (gmap string string))
  (pc_gts : PcGtsT) : Image * RegionMap * PageXmlRenderer :=
  get_canvas (render_all pc_gts
                (PageXmlRenderer_init canvas coords page_id colors)).2.

End Vocabulary.

(** ** An integer geometry kernel

    A small stand-in for shapely on rings with integer vertices, used to
    run the renderer on concrete pages.  Validity is simplicity of the
    ring, containment is the even-odd rule on the open interior; the
    perimeter adds the integer square roots of the squared edge lengths,
    which is exact when every edge is parallel to an axis. *)
Module Kernel.

Definition edge : Type := (Z * Z) * (Z * Z).

(** The edges of the ring that closes [p]. *)
Definition edges (p : list (Z * Z)) : list edge :=
  match p with
  | [] => []
  | a :: q => zip p (q ++ [a])
  end.

Definition cross (o a b : Z * Z) : Z :=
  ((a.1 - o.1) * (b.2 - o.2) - (a.2 - o.2) * (b.1 - o.1))%Z.

(** [c] lies on the closed segment from [a] to [b]. *)
Definition on_segment (a b c : Z * Z) : bool :=
  (cross a b c =? 0)%Z
  && (Z.min a.1 b.1 <=? c.1)%Z && (c.1 <=? Z.max a.1 b.1)%Z
  && (Z.min a.2 b.2 <=? c.2)%Z && (c.2 <=? Z.max a.2 b.2)%Z.

Definition segments_meet (e1 e2 : edge) : bool :=
  let '(a, b) := e1 in
  let '(c, d) := e2 in
  let d1 := Z.sgn (cross a b c) in
  let d2 := Z.sgn (cross a b d) in
  let d3 := Z.sgn (cross c d a) in
  let d4 := Z.sgn (cross c d b) in
  ((d1 * d2 <? 0)%Z && (d3 * d4 <? 0)%Z)
  || on_segment a b c || on_segment a b d
  || on_segment c d a || on_segment c d b.

(** Consecutive edges [(a, b)] and [(b, c)] do not fold back onto each
    other. *)
Definition turn_ok (e1 e2 : edge) : bool :=
  let '(a, b) := e1 in
  let '(_, c) := e2 in
  negb ((cross b a c =? 0)%Z
        && (0 <? (a.1 - b.1) * (c.1 - b.1) + (a.2 - b.2) * (c.2 - b.2))%Z).

Definition simple (p : list (Z * Z)) : bool :=
  let es := imap (λ i e, (i, e)) (edges p) in
  let n := List.length es in
  forallb (λ '(i, e1),
    forallb (λ '(j, e2),
      if (i <? j)%nat then
        if (j =? S i)%nat then turn_ok e1 e2
        else if (i =? 0)%nat && (j =? n - 1)%nat then turn_ok e2 e1
        else negb (segments_meet e1 e2)
      else true) es) es.

Definition perimeter (p : list (Z * Z)) : Z :=
  foldr (λ '(a, b) acc,
           (Z.sqrt ((b.1 - a.1) * (b.1 - a.1) + (b.2 - a.2) * (b.2 - a.2))
            + acc)%Z) 0%Z (edges p).

Definition bounding_box (p : list (Z * Z)) : Q * Q * Q * Q :=
  match p with
  | [] => (0, 0, 0, 0)%Q
  | a :: q =>
      (inject_Z (foldr Z.min a.1 (fst <$> q)),
       inject_Z (foldr Z.min a.2 (snd <$> q)),
       inject_Z (foldr Z.max a.1 (fst <$> q)),
       inject_Z (foldr Z.max a.2 (snd <$> q)))
  end.

Definition qpoint (a : Z * Z) : Q * Q := (inject_Z a.1, inject_Z a.2).

Definition between (a b x : Q) : bool :=
  (Qle_bool a x && Qle_bool x b) || (Qle_bool b x && Qle_bool x a).

Definition on_boundary (pt : Q * Q) (e : edge) : bool :=
  let '(a, b) := (qpoint e.1, qpoint e.2) in
  Qeq_bool ((b.1 - a.1) * (pt.2 - a.2) - (b.2 - a.2) * (pt.1 - a.1)) 0
  && between a.1 b.1 pt.1 && between a.2 b.2 pt.2.

(** The horizontal ray leaving [pt] to the right crosses the edge. *)
Definition ray_crosses (pt : Q * Q) (e : edge) : bool :=
  let '(a, b) := (qpoint e.1, qpoint e.2) in
  xorb (float_lt pt.2 a.2) (float_lt pt.2 b.2)
  && float_lt pt.1 ((b.1 - a.1) * (pt.2 - a.2) / (b.2 - a.2) + a.1).

Definition inside (p : list (Z * Z)) (pt : Q * Q) : bool :=
  negb (existsb (on_boundary pt) (edges p))
  && Nat.odd (List.length (filter (λ e, ray_crosses pt e = true) (edges p))).

Definition new (points : list (Z * Z)) : outcome (list (Z * Z)) :=
  if (List.length points <? 3)%nat
  then Raise (ValueError "A LinearRing must have at least 3 coordinate tuples")
  else Return points.

Definition shapely : Shapely := {|
  Polygon := list (Z * Z);
  Polygon_new := new;
  is_valid := simple;
  explain_validity := λ _, "Self-intersection";
  is_empty := λ p, bool_decide (p = []);
  bounds := bounding_box;
  length := λ p, inject_Z (perimeter p);
  exterior_coords := λ p, qpoint <$> (p ++ option_list (head p));
  contains := inside
|}.

(** The mapper of an image that was neither cropped nor rotated. *)
Definition ocrd_utils : OcrdUtils := {|
  Transform := unit;
  coordinates_of_segment := λ e _, Coords e
|}.

End Kernel.

(** ** Pages used as examples *)
Module Example.

Definition pc_gts_el : Element := mkElement PcGtsType None None [] IsNone.
Definition page_el : Element :=
  mkElement PageType None None [] (Ref pc_gts_el).

Definition border : Element :=
  mkElement BorderType None None
    [(0, 0); (100, 0); (100, 100); (0, 100)]%Z (Ref page_el).

Definition region_el : Element :=
  mkElement TextRegionType (Some "r1") (Some "paragraph")
    [(10, 10); (50, 10); (50, 50); (10, 50)]%Z (Ref page_el).

Definition line_el : Element :=
  mkElement TextLineType (Some "l1") None
    [(12, 12); (48, 12); (48, 20); (12, 20)]%Z (Ref region_el).

Definition word_el : Element :=
  mkElement WordType (Some "w1") None
    [(14, 13); (40, 13); (40, 19); (14, 19)]%Z (Ref line_el).

Definition line : TextLineT := mkTextLine line_el [].
Definition text_region : RegionT := mkRegion region_el [line].

(** Border, one text region, one line. *)
Definition pc_gts : PcGtsT :=
  mkPcGts (mkPage page_el None (Some border) [text_region]).

(** The same page with a word in the line. *)
Definition line_w : TextLineT := mkTextLine line_el [mkWord word_el []].
Definition text_region_w : RegionT := mkRegion region_el [line_w].
Definition pc_gts_w : PcGtsT :=
  mkPcGts (mkPage page_el None (Some border) [text_region_w]).


(** A caller's colour table that gives paragraphs a colour of their own
    and does not know borders. *)
Definition custom_colors : gmap string string :=
  list_to_map [("TextRegion", "0000FFFF");
               ("TextRegion:paragraph", "00FF00FF");
               ("TextLine", "32CD32FF")].

Definition renderer (colors : option (gmap string string))
  : @PageXmlRenderer Kernel.shapely Kernel.ocrd_utils :=
  @PageXmlRenderer_init Kernel.shapely Kernel.ocrd_utils [] tt "p1" colors.

(** The polygons of the border and of the text region. *)
Definition border_poly : @Polygon Kernel.shapely := Coords border.
Definition region_poly : @Polygon Kernel.shapely := Coords region_el.

(** The region maps of these pages, painted with the built-in table. *)
Definition region_map : @RegionMap Kernel.shapely :=
  (@render_pass Kernel.shapely Kernel.ocrd_utils [] tt "p1" None pc_gts).1.2.

Definition region_map_w : @RegionMap Kernel.shapely :=
  (@render_pass Kernel.shapely Kernel.ocrd_utils [] tt "p1" None
     pc_gts_w).1.2.

End Example.

(** ** Further vocabulary *)

Section Acceptance.
Context {G : Shapely} {U : OcrdUtils}.

(** The geometry library accepts the polygon of a node under the
    transform [tr]. *)
Definition accepted_at (tr : Transform) (r : RegionWithCoords) : Prop :=
  ∃ p, Polygon_new (coordinates_of_segment (element r) tr) = Return p
       ∧ validated p.

(** A method that returns and leaves in the batch one operation for every
    node of [w], in this order, without writing to the log. *)
Definition emits (tr : Transform) (m : M unit)
  (w : list RegionWithCoords) : Prop :=
  ∀ self, coords self = tr →
    ∃ l, (m self).1 = Return tt
         ∧ operations (m self).2 = foldl Operations_append (operations self) l
         ∧ region <$> l = w
         ∧ coords (m self).2 = tr
         ∧ logger (m self).2 = logger self.

(** The keys under which the operations of [l] were looked up. *)
Definition looked_up_keys (l : list Operation) : list string :=
  (λ op, color_key (region op)) <$> l.

(** The entry under [k] of a [defaultdict] that held [before] and was
    then read under every key of [keys]: what was stored stays, a key
    that was read and missing holds the factory's value, any other key is
    still missing. *)
Definition after_lookups (before : gmap string string) (keys : list string)
  (k : string) : option string :=
  match before !! k with
  | Some v => Some v
  | None => if bool_decide (k ∈ keys) then Some "FF0000FF" else None
  end.

(** The batch received the operations of some list [l] and the colour
    table was read under exactly their keys. *)
Definition tracks (self self' : PageXmlRenderer) : Prop :=
  ∃ l, operations self' = foldl Operations_append (operations self) l
       ∧ ∀ k, colors self' !! k
              = after_lookups (colors self) (looked_up_keys l) k.

Definition tracking {A : Type} (m : M A) : Prop :=
  ∀ self, tracks self (m self).2.

End Acceptance.

(** Two geometry libraries that differ from the integer kernel in how
    they refuse a ring of fewer than three points: one raises a
    [ValueError] without message, the other an exception of another
    class. *)
Module Faulty.

Definition new_silent (points : list (Z * Z)) : outcome (list (Z * Z)) :=
  if (List.length points <? 3)%nat
  then Raise (ValueError EmptyString)
  else Return points.

Definition new_type_error (points : list (Z * Z))
  : outcome (list (Z * Z)) :=
  if (List.length points <? 3)%nat
  then Raise (OtherError "TypeError" "object of type 'int' has no len()")
  else Return points.

Definition with_constructor
  (new : list (Z * Z) → outcome (list (Z * Z))) : Shapely := {|
  Polygon := list (Z * Z);
  Polygon_new := new;
  is_valid := Kernel.simple;
  explain_validity := λ _, "Self-intersection";
  is_empty := λ p, bool_decide (p = []);
  bounds := Kernel.bounding_box;
  length := λ p, inject_Z (Kernel.perimeter p);
  exterior_coords := λ p, Kernel.qpoint <$> (p ++ option_list (head p));
  contains := Kernel.inside
|}.

Definition silent : Shapely := with_constructor new_silent.
Definition type_error : Shapely := with_constructor new_type_error.

(** A print space given by two points only. *)
Definition print_space : Element :=
  mkElement PrintSpaceType None None [(0, 0); (100, 100)]%Z
    (Ref Example.page_el).

Definition pc_gts : PcGtsT :=
  mkPcGts (mkPage Example.page_el (Some print_space) (Some Example.border)
             [Example.text_region]).

End Faulty.

(** ** PageListStore ([ui/page_store.py]) *)

(** A cell of the list store: a string, [None], an integer or a pixbuf,
    which is named by its icon. *)
Inductive Cell : Type :=
| CellNone
| CellStr (s : string)
| CellInt (n : Z)
| CellPixbuf (icon : string).

Global Instance Cell_eq_dec : EqDecision Cell.
Proof. solve_decision. Defined.

(** A row is the list of its cells; the store is the list of its rows. *)
Definition Row : Type := list Cell.

Definition COLUMN_PAGE_ID : nat := 0.
Definition COLUMN_FILENAME : nat := 2.

(** The loop of [get_row_by_column_value]; [n] is the index [enumerate]
    has reached.  [row[column]] raises when the row has no such column. *)
Fixpoint get_row_loop (rows : list Row) (n : nat) (column : nat)
  (value : string) : outcome (option (nat * Row)) :=
  match rows with
  | [] => Return None
  | row :: rest =>
      match row !! column with
      | None => Raise (OtherError "IndexError" "column index is out of bounds")
      | Some cell =>
          if bool_decide (cell = CellStr value)
          then Return (Some (n, row))
          else get_row_loop rest (S n) column value
      end
  end.

(** [(None, None)] is [None] here, [(n, row)] is [Some (n, row)]. *)
Definition get_row_by_column_value (self : list Row) (column : nat)
  (value : string) : outcome (option (nat * Row)) :=
  get_row_loop self 0 column value.

Definition get_row_by_page_id (self : list Row) (page_id : string)
  : outcome (option (nat * Row)) :=
  get_row_by_column_value self COLUMN_PAGE_ID page_id.

(** [path_for_id]: the index in the path, [None] when the id is not
    found. *)
Definition path_for_id (self : list Row) (page_id : string)
  : outcome (option nat) :=
  match get_row_by_page_id self page_id with
  | Return (Some (n, row)) => Return (Some n)
  | Return None => Return None
  | Raise e => Raise e
  end.

(** * Properties *)

Section FindRegion.
Context {G : Shapely} {U : OcrdUtils}.

(** ** find_region *)

Lemma py_or_cases (ig : option (list PageClass)) :
  py_or ig default_ignore = default_ignore
  ∨ (∃ c l, ig = Some (c :: l) ∧ py_or ig default_ignore = c :: l).
Proof.
  destruct ig as [[|c l]|]; simpl; eauto.
Qed.

Lemma find_region_loop_cons (rm : RegionMap) p ig e :
  find_region_loop (e :: rm) p ig =
    if bool_decide (matches p ig e) then Some e.2
    else find_region_loop rm p ig.
Proof.
  destruct e as [q s]. cbn [find_region_loop].
  destruct (decide (matches p ig (q, s))) as [[Hc Hn]|Hm].
  - rewrite (bool_decide_eq_true_2 (matches _ _ _)) by done.
    simpl in Hc, Hn. rewrite Hc.
    by rewrite (bool_decide_eq_false_2 (_ ∈ _)) by done.
  - rewrite (bool_decide_eq_false_2 (matches _ _ _)) by done.
    unfold matches in Hm. simpl in Hm.
    destruct (contains q p); [|done].
    rewrite (bool_decide_eq_true_2 (_ ∈ _)); [done|].
    destruct (decide (type s ∈ ig)); [done | tauto].
Qed.

Lemma find_region_loop_app (l1 l2 : RegionMap) p ig :
  Forall (λ e, ¬ matches p ig e) l1 →
  find_region_loop (l1 ++ l2) p ig = find_region_loop l2 p ig.
Proof.
  induction 1 as [|e l1 He _ IH]; [done|].
  rewrite <- app_comm_cons, find_region_loop_cons.
  by rewrite bool_decide_eq_false_2.
Qed.

Lemma find_region_loop_first (rm : RegionMap) p ig r :
  find_region_loop rm p ig = Some r ↔
  ∃ l1 poly l2, rm = l1 ++ (poly, r) :: l2
    ∧ matches p ig (poly, r) ∧ Forall (λ e, ¬ matches p ig e) l1.
Proof.
  split.
  - induction rm as [|e rm IH]; [done|].
    rewrite find_region_loop_cons. case_bool_decide as Hm.
    + intros [= <-]. exists [], e.1, rm. by destruct e.
    + intros (l1 & poly & l2 & -> & Hm' & Hl1)%IH.
      exists (e :: l1), poly, l2. split; [done|]. split; [done|].
      by constructor.
  - intros (l1 & poly & l2 & -> & Hm & Hl1).
    rewrite find_region_loop_app by done.
    rewrite find_region_loop_cons. by rewrite bool_decide_eq_true_2.
Qed.

Lemma find_region_loop_Some (rm : RegionMap) p ig r :
  find_region_loop rm p ig = Some r →
  ∃ poly, (poly, r) ∈ rm ∧ matches p ig (poly, r).
Proof.
  intros (l1 & poly & l2 & -> & Hm & _)%find_region_loop_first.
  exists poly. split; [|done]. set_solver.
Qed.

Lemma find_region_loop_None (rm : RegionMap) p ig :
  find_region_loop rm p ig = None ↔ Forall (λ e, ¬ matches p ig e) rm.
Proof.
  induction rm as [|e rm IH]; [by split|].
  rewrite find_region_loop_cons, Forall_cons. case_bool_decide as Hm.
  - split; [done | tauto].
  - rewrite IH. tauto.
Qed.

(** C7: [find_region] never returns a region whose type is in the ignore
    set (the one passed, [Border] and [PrintSpace] when none is passed),
    and it returns [None] when every recorded polygon that contains the
    point belongs to a region of an ignored type, which covers the case
    where no recorded polygon contains the point. *)
Theorem C7_find_region_filters_ignored (rm : RegionMap) (x y : Q)
  (ig : option (list PageClass)) :
  (∀ r, find_region rm x y ig = Some r → type r ∉ ignore_set ig)
  ∧ ((∀ poly r, (poly, r) ∈ rm → contains poly (x, y) = true →
        type r ∈ ignore_set ig) →
     find_region rm x y ig = None).
Proof.
  unfold find_region. split.
  - intros r (poly & _ & _ & Hn)%find_region_loop_Some. simpl in Hn.
    destruct ig as [[|c l]|]; simpl in *; [set_solver | done | done].
  - intros Hall. apply find_region_loop_None, Forall_forall.
    intros [poly r] Hin [Hc Hn]. simpl in Hc, Hn.
    specialize (Hall poly r Hin Hc).
    destruct ig as [[|c l]|]; simpl in *; [set_solver | done | done].
Qed.

(** C10: an empty ignore list is replaced by the default one, exactly as
    when no list is passed, so regions of type [Border] and [PrintSpace]
    stay filtered; only a non-empty list is used as it is. *)
Theorem C10_empty_ignore_list_is_default (rm : RegionMap) (x y : Q) :
  find_region rm x y (Some []) = find_region rm x y None
  ∧ find_region rm x y (Some []) = find_region rm x y (Some default_ignore)
  ∧ (∀ r, find_region rm x y (Some []) = Some r →
       type r ≠ BorderType ∧ type r ≠ PrintSpaceType)
  ∧ (∀ c l, find_region rm x y (Some (c :: l))
            = find_region_loop rm (x, y) (c :: l)).
Proof.
  split_and!; try done.
  intros r (poly & _ & _ & Hn)%find_region_loop_Some. simpl in Hn.
  unfold default_ignore in Hn. set_solver.
Qed.

End FindRegion.

(** On the example page with a word: the point (5, 5) lies in the border
    only, the point (30, 15) in the word, the line, the region and the
    border. *)
Lemma C7_witness :
  (find_region Example.region_map_w 30 15 None
     = Some (AWord (mkWord Example.word_el []))
   ∧ type (AWord (mkWord Example.word_el [])) ∉ ignore_set None)
  ∧ find_region Example.region_map_w 5 5 None = None.
Proof.
  pose proof (@C7_find_region_filters_ignored Kernel.shapely
                Example.region_map_w 30 15 None) as [H1 _].
  pose proof (@C7_find_region_filters_ignored Kernel.shapely
                Example.region_map_w 5 5 None) as [_ H2].
  split.
  - split; [by vm_compute | apply H1; by vm_compute].
  - apply H2. intros poly r Hin.
    apply list_elem_of_In in Hin. vm_compute in Hin.
    intros Hc.
    repeat (destruct Hin as [Hin|Hin];
            [inversion Hin; subst; clear Hin;
             first [by vm_compute in Hc | vm_compute; set_solver]|]).
    destruct Hin.
Defined.

Lemma C10_witness :
  find_region Example.region_map_w 5 5 (Some []) = None
  ∧ find_region Example.region_map_w 5 5 (Some [TextLineType])
    = Some (ABorder Example.border).
Proof.
  pose proof (@C10_empty_ignore_list_is_default Kernel.shapely
                Example.region_map_w 5 5) as (H1 & _ & _ & H4).
  split.
  - rewrite H1. by vm_compute.
  - rewrite H4. by vm_compute.
Defined.

Section Methods.
Context {G : Shapely} {U : OcrdUtils}.

(** ** Strings and floats *)

Lemma str_take_app (a b : string) :
  str_take (String.length a) (a +:+ b) = a.
Proof.
  unfold str_take. induction a as [|c a IH]; simpl.
  - by destruct b.
  - by rewrite IH.
Qed.

Lemma float_lt_true (a b : Q) : float_lt a b = true ↔ (a < b)%Q.
Proof.
  unfold float_lt. rewrite negb_true_iff, <- not_true_iff_false, Qle_bool_iff.
  split; [apply Qnot_le_lt | apply Qlt_not_le].
Qed.

Lemma float_lt_false (a b : Q) : float_lt a b = false ↔ (b <= a)%Q.
Proof.
  unfold float_lt. by rewrite negb_false_iff, Qle_bool_iff.
Qed.

(** ** render_type and render_text_region *)

(** The calls that [render_text_region] makes are calls of [render_type]:
    on a line, a word or a glyph the [isinstance] test fails, and the
    descent is not taken. *)
Lemma render_text_region_calls_render_type (text_region : RegionWithCoords) :
  render_text_region text_region =
  for_each (get_TextLine text_region) (λ line,
    render_type (Some (ATextLine line)) ;;
    for_each (Word line) (λ word,
      render_type (Some (AWord word)) ;;
      for_each (Glyph word) (λ glyph,
        render_type (Some (AGlyph glyph))))).
Proof. reflexivity. Qed.

(** ** plot_segment *)

Lemma plot_segment_eq (poly : Polygon) (region : RegionWithCoords)
  (self : PageXmlRenderer) :
  plot_segment poly region self =
  (Return tt,
   {| canvas := canvas self; coords := coords self;
      page_id := page_id self;
      colors := match colors self !! color_key region with
                | Some _ => colors self
                | None => <[color_key region := "FF0000FF"]> (colors self)
                end;
      logger := logger self;
      operations :=
        Operations_append (operations self)
          (operation_of poly region
             (default "FF0000FF" (colors self !! color_key region))) |}).
Proof.
  unfold plot_segment, mbind, M_bind, colors_getitem, operations_append.
  fold (color_key region).
  by destruct (colors self !! color_key region).
Qed.

(** C8: the operation emitted for a validated polygon carries the first
    six hex digits of the looked-up colour, followed by [1E] in the fill
    and by [96] in the outline; the digits after the sixth, the alpha of
    the table entry, do not occur in it. *)
Theorem C8_fixed_alpha (poly : Polygon) (region : RegionWithCoords)
  (self : PageXmlRenderer) (rgb alpha : string) :
  String.length rgb = 6%nat →
  default "FF0000FF" (colors self !! color_key region) = rgb +:+ alpha →
  ∃ self',
    plot_segment poly region self = (Return tt, self')
    ∧ operations self' =
        Operations_append (operations self)
          (mkOperation poly region ("#" +:+ rgb +:+ "1E")
                                   ("#" +:+ rgb +:+ "96")).
Proof.
  intros Hlen Hcol. eexists. split; [apply plot_segment_eq|].
  simpl. unfold operation_of. rewrite Hcol, <- Hlen.
  by rewrite str_take_app.
Qed.

(** C1, as the code has it: the colour of the paint operation is looked
    up under the key of the region's class alone, with the fallback
    colour when that key is not registered; the subtype of the region is
    not read. *)
Theorem C1_lookup_by_type_only (poly : Polygon) (region : RegionWithCoords)
  (self : PageXmlRenderer) :
  ∃ self',
    plot_segment poly region self = (Return tt, self')
    ∧ operations self' =
        Operations_append (operations self)
          (operation_of poly region
             (spec_color_for (colors self) (color_key region) None)).
Proof.
  eexists. split; [apply plot_segment_eq | done].
Qed.

End Methods.

Lemma C8_witness :
  ∃ self',
    plot_segment Example.border_poly
      (ABorder Example.border) (Example.renderer None) = (Return tt, self')
    ∧ operations self' =
        Operations_append (operations (Example.renderer None))
          (mkOperation Example.border_poly (ABorder Example.border)
             "#FFFFFF1E" "#FFFFFF96").
Proof.
  apply (@C8_fixed_alpha Kernel.shapely Kernel.ocrd_utils
           Example.border_poly (ABorder Example.border)
           (Example.renderer None) "FFFFFF" "FF"); by vm_compute.
Defined.

(** With a table that registers "TextRegion:paragraph", a text region of
    subtype paragraph is still painted in the colour of "TextRegion". *)
Lemma C1_counterexample :
  operations
    (plot_segment Example.region_poly
       (ARegion Example.text_region)
       (Example.renderer (Some Example.custom_colors))).2
  ≠ Operations_append
      (operations (Example.renderer (Some Example.custom_colors)))
      (operation_of Example.region_poly
         (ARegion Example.text_region)
         (spec_color_for Example.custom_colors "TextRegion"
            (type_ Example.region_el))).
Proof.
  intros H.
  apply (f_equal (λ m : gmap nat (list (@Operation Kernel.shapely)),
                    @fill Kernel.shapely <$> default [] (m !! 4%nat))) in H.
  vm_compute in H. discriminate H.
Qed.

Section Validation.
Context {G : Shapely} {U : OcrdUtils}.

(** ** segment_poly *)

Lemma segment_poly_eq (segment : RegionWithCoords) (self : PageXmlRenderer) :
  segment_poly segment self =
  match try_polygon (coordinates_of_segment (element segment) (coords self))
  with
  | Raise e => (Raise e, self)
  | Return (poly, reason) =>
      if bool_decide (reason ≠ EmptyString)
      then (Return None, logged self (log_line self segment reason))
      else (Return poly, self)
  end.
Proof.
  unfold segment_poly.
  destruct (try_polygon _) as [[poly reason]|e]; [|done].
  by case_bool_decide.
Qed.

(** A polygon with no reason against it passed every test. *)
Lemma validity_reason_empty (p : Polygon) :
  (is_valid p = false → explain_validity p ≠ EmptyString) →
  validity_reason p = EmptyString → validated p.
Proof.
  unfold validity_reason, validated. intros Hexplain.
  destruct (is_valid p); simpl; [|by intros ?%Hexplain].
  destruct (is_empty p); [done|].
  destruct (float_lt (minx (bounds p)) 0) eqn:Hx; [done|].
  destruct (float_lt (miny (bounds p)) 0) eqn:Hy; [done|]. simpl.
  destruct (float_lt (length p) 4) eqn:Hl; [done|].
  apply float_lt_false in Hx, Hy, Hl. done.
Qed.

(** A reason names the first test that failed. *)
Lemma validity_reason_cases (polygon : list (Z * Z)) (p : Polygon) :
  Polygon_new polygon = Return p →
  validity_reason p ≠ EmptyString →
  rejected_for polygon (validity_reason p).
Proof.
  intros Hnew Hreason. right. exists p. split; [done|].
  unfold validity_reason in *.
  destruct (is_valid p); simpl in *; [|by left].
  right. destruct (is_empty p); [by left|]. right.
  destruct (float_lt (minx (bounds p)) 0) eqn:Hx; simpl in *.
  { left. apply float_lt_true in Hx. tauto. }
  destruct (float_lt (miny (bounds p)) 0) eqn:Hy; simpl in *.
  { left. apply float_lt_true in Hy. tauto. }
  destruct (float_lt (length p) 4) eqn:Hl; [|done].
  right. apply float_lt_false in Hx, Hy. apply float_lt_true in Hl. done.
Qed.

(** C6: when the polygon constructor signals its errors by [ValueError]
    and the diagnostics of the geometry library are not empty strings,
    [segment_poly] returns on every segment and in every state of the
    renderer: either the polygon, which then passed all tests and leaves
    the renderer as it was, or no polygon, after one line with the reason
    was logged; the reason is the message of the construction error, the
    explanation of the invalid polygon, or the name of the first failed
    test (empty, negative bounds, length below 4). *)
Theorem C6_segment_poly_returns (segment : RegionWithCoords)
  (self : PageXmlRenderer) :
  (∀ pts e, Polygon_new pts = Raise e →
     ∃ msg, e = ValueError msg ∧ msg ≠ EmptyString) →
  (∀ p, is_valid p = false → explain_validity p ≠ EmptyString) →
  let polygon := coordinates_of_segment (element segment) (coords self) in
  (∃ poly, segment_poly segment self = (Return (Some poly), self)
     ∧ Polygon_new polygon = Return poly ∧ validated poly)
  ∨ (∃ reason, segment_poly segment self
               = (Return None, logged self (log_line self segment reason))
     ∧ reason ≠ EmptyString ∧ rejected_for polygon reason).
Proof.
  intros Hraise Hexplain polygon. rewrite segment_poly_eq.
  fold polygon. unfold try_polygon.
  destruct (Polygon_new polygon) as [p|e] eqn:Hnew.
  - case_bool_decide as Hreason.
    + right. exists (validity_reason p). split; [done|]. split; [done|].
      by apply validity_reason_cases.
    + left. exists p. split; [done|]. split; [done|].
      apply validity_reason_empty; [apply Hexplain|].
      by destruct (decide (validity_reason p = EmptyString)).
  - destruct (Hraise _ _ Hnew) as (msg & -> & Hmsg). simpl.
    rewrite bool_decide_eq_true_2 by done.
    right. exists msg. split; [done|]. split; [done|]. by left.
Qed.

(** [segment_poly] writes to the log and to nothing else. *)
Lemma segment_poly_frame (segment : RegionWithCoords)
  (self : PageXmlRenderer) :
  let self' := (segment_poly segment self).2 in
  canvas self' = canvas self ∧ coords self' = coords self
  ∧ page_id self' = page_id self ∧ colors self' = colors self
  ∧ operations self' = operations self
  ∧ logger self `prefix_of` logger self'.
Proof.
  rewrite segment_poly_eq.
  destruct (try_polygon _) as [[poly reason]|e]; [|done].
  case_bool_decide; simpl; [|done].
  split_and!; try done. by eexists.
Qed.


End Validation.

(** On the example page, with the integer kernel: the border passes. *)
Lemma C6_witness :
  (∃ poly, segment_poly (ABorder Example.border) (Example.renderer None)
           = (Return (Some poly), Example.renderer None)
     ∧ Kernel.new (Coords Example.border) = Return poly
     ∧ @validated Kernel.shapely poly)
  ∨ (∃ reason, segment_poly (ABorder Example.border) (Example.renderer None)
               = (Return None,
                  logged (Example.renderer None)
                    (log_line (Example.renderer None)
                       (ABorder Example.border) reason))
     ∧ reason ≠ EmptyString
     ∧ @rejected_for Kernel.shapely (Coords Example.border) reason).
Proof.
  apply (@C6_segment_poly_returns Kernel.shapely Kernel.ocrd_utils
           (ABorder Example.border) (Example.renderer None)).
  - intros pts e. simpl. unfold Kernel.new.
    destruct (_ <? _)%nat; [|done].
    intros [= <-]. by eexists.
  - done.
Defined.



(** ** Lists regrouped by depth *)

Section ByDepth.
Context {A : Type} (d : A → nat).

Lemma by_depth_descending_S (n : nat) (l : list A) :
  by_depth_descending d (S n) l
  = filter (λ x, d x = n) l ++ by_depth_descending d n l.
Proof.
  unfold by_depth_descending.
  by rewrite seq_S, reverse_snoc, bind_cons.
Qed.

Lemma elem_of_by_depth_descending (n : nat) (l : list A) (x : A) :
  x ∈ by_depth_descending d n l ↔ x ∈ l ∧ d x < n.
Proof.
  induction n as [|n IH].
  - unfold by_depth_descending. simpl. split; [by intros ?%elem_of_nil | lia].
  - rewrite by_depth_descending_S, elem_of_app, list_elem_of_filter, IH.
    split; [intros [[-> ?]|[? ?]]; split; (done || lia)|].
    intros [? ?]. destruct (decide (d x = n)); [by left | right].
    split; [done | lia].
Qed.

Lemma filter_none (P : A → Prop) `{∀ x, Decision (P x)} (l : list A) :
  (∀ x, x ∈ l → ¬ P x) → filter P l = [].
Proof.
  induction l as [|x l IH]; [done|]. intros Hl.
  rewrite filter_cons_False by (apply Hl; left).
  apply IH. intros y Hy. apply Hl. by right.
Qed.

Lemma filter_all (P : A → Prop) `{∀ x, Decision (P x)} (l : list A) :
  (∀ x, x ∈ l → P x) → filter P l = l.
Proof.
  induction l as [|x l IH]; [done|]. intros Hl.
  rewrite filter_cons_True by (apply Hl; left).
  f_equal. apply IH. intros y Hy. apply Hl. by right.
Qed.

Lemma filter_sublist_mono (P : A → Prop) `{∀ x, Decision (P x)}
  (l1 l2 : list A) :
  l1 `sublist_of` l2 → filter P l1 `sublist_of` filter P l2.
Proof.
  induction 1 as [|x l1 l2 _ IH|x l1 l2 _ IH]; [done| |].
  - rewrite !filter_cons. destruct (decide (P x)); [by constructor | done].
  - rewrite (filter_cons _ x l2).
    destruct (decide (P x)); [by constructor | done].
Qed.

(** The regrouped list is ordered by non-increasing depth. *)
Lemma by_depth_descending_sorted (n : nat) (l : list A) :
  StronglySorted (λ a b, (d b ≤ d a)%nat) (by_depth_descending d n l).
Proof.
  induction n as [|n IH]; [constructor|].
  rewrite by_depth_descending_S. apply StronglySorted_app_2; [| |done].
  - intros x1 x2 [Hx1 _]%list_elem_of_filter
      [_ Hx2]%elem_of_by_depth_descending. lia.
  - assert (Forall (λ x, d x = n) (filter (λ x, d x = n) l)) as Hall.
    { apply Forall_forall. by intros x [? _]%list_elem_of_filter. }
    induction Hall as [|x k Hx Hk IHk]; constructor; [done|].
    eapply Forall_impl; [exact Hk|]. simpl. lia.
Qed.

(** Within one depth, the regrouped list keeps the order of the list. *)
Lemma by_depth_descending_filter (n k : nat) (l : list A) :
  k < n →
  filter (λ x, d x = k) (by_depth_descending d n l)
  = filter (λ x, d x = k) l.
Proof.
  induction n as [|n IH]; [lia|]. intros Hk.
  rewrite by_depth_descending_S, filter_app.
  destruct (decide (k = n)) as [->|Hne].
  - rewrite (filter_none _ (by_depth_descending d n l)).
    + rewrite app_nil_r. apply filter_all.
      by intros x [? _]%list_elem_of_filter.
    + intros x [_ ?]%elem_of_by_depth_descending. lia.
  - rewrite (filter_none _ (filter _ l)).
    + apply IH. lia.
    + intros x [? _]%list_elem_of_filter. lia.
Qed.

Lemma by_depth_descending_sublist (n : nat) (l1 l2 : list A) :
  l1 `sublist_of` l2 →
  by_depth_descending d n l1 `sublist_of` by_depth_descending d n l2.
Proof.
  intros Hsub. induction n as [|n IH]; [done|].
  rewrite !by_depth_descending_S.
  apply sublist_app; [by apply filter_sublist_mono | done].
Qed.

(** Looking at more depths than the list has changes nothing. *)
Lemma by_depth_descending_bound (n n' : nat) (l : list A) :
  (∀ x, x ∈ l → d x < n) → (n ≤ n')%nat →
  by_depth_descending d n' l = by_depth_descending d n l.
Proof.
  intros Hl. induction 1 as [|m Hm IH]; [done|].
  rewrite by_depth_descending_S, filter_none; [done|].
  intros x Hx%Hl. lia.
Qed.

Lemma max_depth_bound (l : list A) (x : A) :
  x ∈ l → d x < S (max_depth d l).
Proof.
  induction 1 as [x l|x y l _ IH]; simpl; lia.
Qed.

End ByDepth.

Lemma by_depth_descending_fmap {A B : Type} (d : A → nat) (f : B → A)
  (n : nat) (l : list B) :
  by_depth_descending d n (f <$> l)
  = f <$> by_depth_descending (d ∘ f) n l.
Proof.
  induction n as [|n IH]; [done|].
  rewrite !by_depth_descending_S, fmap_app, IH. f_equal.
  clear IH. induction l as [|x l IH]; [done|].
  rewrite fmap_cons, !filter_cons. simpl.
  destruct (decide (d (f x) = n)); by rewrite IH.
Qed.

(** ** Sorted keys *)

Global Instance descending_trans : Transitive descending.
Proof. unfold descending. intros a b c ? ?. lia. Qed.

Global Instance descending_total : Total descending.
Proof. unfold descending. intros a b. lia. Qed.

Global Instance descending_antisymm : AntiSymm (=) descending.
Proof. unfold descending. intros a b ? ?. lia. Qed.

Lemma reverse_seq_sorted (n : nat) :
  StronglySorted descending (reverse (seq 0 n)).
Proof.
  induction n as [|n IH]; [constructor|].
  rewrite seq_S, reverse_snoc. constructor; [done|].
  apply Forall_forall. intros k [_ Hk]%elem_of_reverse%elem_of_seq.
  unfold descending. simpl in *. lia.
Qed.

Lemma StronglySorted_filter {A : Type} (R : relation A) (P : A → Prop)
  `{∀ x, Decision (P x)} (l : list A) :
  StronglySorted R l → StronglySorted R (filter P l).
Proof.
  induction 1 as [|x l _ IH Hx]; [constructor|].
  rewrite filter_cons. destruct (decide (P x)); [|done].
  constructor; [done|].
  apply Forall_forall. intros y [_ Hy]%list_elem_of_filter.
  by eapply Forall_forall in Hx.
Qed.

(** [sorted(keys, reverse=True)] lists the keys from the largest down. *)
Lemma sorted_reverse_seq (X : gset nat) (n : nat) :
  (∀ k, k ∈ X → k < n) →
  sorted_reverse (elements X) = filter (λ k, k ∈ X) (reverse (seq 0 n)).
Proof.
  intros Hbound. unfold sorted_reverse.
  apply (Sorted_unique descending).
  - apply Sorted_merge_sort; apply _.
  - apply StronglySorted_Sorted, StronglySorted_filter, reverse_seq_sorted.
  - rewrite merge_sort_Permutation. apply NoDup_Permutation.
    + apply NoDup_elements.
    + apply NoDup_filter. rewrite reverse_Permutation. apply NoDup_seq.
    + intros k. rewrite elem_of_elements, list_elem_of_filter,
        elem_of_reverse, elem_of_seq.
      split; [|tauto]. intros Hk. split; [done|].
      specialize (Hbound k Hk). lia.
Qed.

Lemma bind_filter_nil {A B : Type} (P : A → Prop) `{∀ x, Decision (P x)}
  (g : A → list B) (l : list A) :
  (∀ x, x ∈ l → ¬ P x → g x = []) → filter P l ≫= g = l ≫= g.
Proof.
  induction l as [|x l IH]; [done|]. intros Hg.
  rewrite filter_cons, bind_cons.
  destruct (decide (P x)) as [Hx|Hx].
  - rewrite bind_cons, IH; [done|]. intros y Hy. apply Hg. by right.
  - rewrite (Hg x) by (done || left). simpl.
    apply IH. intros y Hy. apply Hg. by right.
Qed.

Section Batch.
Context {G : Shapely}.

(** ** Operations *)

Lemma Operations_append_lookup (m : gmap nat (list Operation))
  (op : Operation) (k : nat) :
  default [] (Operations_append m op !! k)
  = default [] (m !! k) ++ (if decide (depth op = k) then [op] else []).
Proof.
  unfold Operations_append. destruct (decide (depth op = k)) as [<-|Hne].
  - by rewrite lookup_insert_eq.
  - by rewrite lookup_insert_ne, app_nil_r.
Qed.

(** After appending [l], the list kept under a depth is the one that was
    there, followed by the operations of [l] of this depth, in the order
    of [l]. *)
Lemma foldl_append_lookup (l : list Operation)
  (m : gmap nat (list Operation)) (k : nat) :
  default [] (foldl Operations_append m l !! k)
  = default [] (m !! k) ++ filter (λ op, depth op = k) l.
Proof.
  revert m. induction l as [|op l IH]; intros m; simpl.
  - by rewrite app_nil_r.
  - rewrite IH, Operations_append_lookup, <- app_assoc. f_equal.
    rewrite filter_cons. by destruct (decide (depth op = k)).
Qed.

Lemma foldl_append_dom (l : list Operation)
  (m : gmap nat (list Operation)) (k : nat) :
  k ∈ dom (foldl Operations_append m l)
  ↔ k ∈ dom m ∨ ∃ op, op ∈ l ∧ depth op = k.
Proof.
  revert m. induction l as [|op l IH]; intros m; simpl.
  - split; [by left|]. intros [?|(op & ?%elem_of_nil & _)]; done.
  - rewrite IH. unfold Operations_append at 1. rewrite dom_insert_L.
    rewrite elem_of_union, elem_of_singleton. split.
    + intros [[->|?]|(op' & ? & ?)]; [right|by left|right].
      * exists op. split; [left|done].
      * exists op'. split; [by right|done].
    + intros [?|(op' & Hin & ?)]; [by left; right|].
      apply elem_of_cons in Hin as [->|?]; [by left; left|].
      right. by exists op'.
Qed.

Lemma batch_lookup (l : list Operation) (k : nat) :
  default [] (batch l !! k) = filter (λ op, depth op = k) l.
Proof. unfold batch. by rewrite foldl_append_lookup, lookup_empty. Qed.

Lemma batch_dom (l : list Operation) (k : nat) :
  k ∈ dom (batch l) ↔ ∃ op, op ∈ l ∧ depth op = k.
Proof.
  unfold batch. rewrite foldl_append_dom, dom_empty_L. set_solver.
Qed.

(** The layers of a batch: one for every depth that occurs, the deepest
    first, each with its operations in the order they were appended. *)
Lemma layers_batch (l : list Operation) (n : nat) :
  (∀ op, op ∈ l → depth op < n) →
  layers (batch l)
  = (λ k, (k, filter (λ op, depth op = k) l))
      <$> filter (λ k, k ∈ depth <$> l) (reverse (seq 0 n)).
Proof.
  intros Hbound. unfold layers.
  rewrite (sorted_reverse_seq _ n).
  - erewrite (list_filter_iff (λ k, k ∈ dom (batch l))).
    + apply list_fmap_ext. intros _ k _. by rewrite batch_lookup.
    + intros k. rewrite batch_dom, list_elem_of_fmap. naive_solver.
  - intros k (op & Hop & <-)%batch_dom. by apply Hbound.
Qed.

(** ** paint *)

Lemma paint_layer_eq (ops : list Operation) (draw : ImageDraw)
  (regions : RegionMap) :
  paint_layer ops draw regions
  = (draw ++ (drawn <$> ops), regions ++ (entry <$> ops)).
Proof.
  unfold paint_layer.
  change (draw ++ (drawn <$> ops), regions ++ (entry <$> ops))
    with ((draw, regions).1 ++ (drawn <$> ops),
          (draw, regions).2 ++ (entry <$> ops)).
  generalize (draw, regions) as acc. clear draw regions.
  induction ops as [|op ops IH]; intros [draw regions]; cbn [foldl].
  - simpl. by rewrite !app_nil_r.
  - rewrite IH. simpl. unfold RegionMap_append, draw_polygon.
    by rewrite <- !app_assoc.
Qed.

Lemma Operations_paint_eq (m : gmap nat (list Operation)) (canvas : Image) :
  Operations_paint m canvas
  = (canvas ++ (layer_drawn <$> layers m),
     layers m ≫= layer_entries,
     ∅).
Proof.
  unfold Operations_paint.
  assert (∀ ls c (r : RegionMap),
    foldl (λ '(canvas, regions) '(depth, operations),
             let layer : ImageDraw := [] in
             let '(draw, regions) := paint_layer operations layer regions in
             (alpha_composite canvas draw, regions)) (c, r) ls
    = (c ++ (layer_drawn <$> ls),
       r ++ (ls ≫= layer_entries))) as Hfold.
  { induction ls as [|[k ops] ls IH]; intros c r; cbn [foldl].
    - simpl. by rewrite !app_nil_r.
    - rewrite paint_layer_eq. cbn [app]. rewrite IH.
      unfold alpha_composite. simpl. by rewrite <- !app_assoc. }
  by rewrite Hfold.
Qed.

(** The region map painted from a batch is the list of the entries of its
    operations, regrouped by depth, the deepest first. *)
Lemma paint_batch_regions (l : list Operation) (canvas : Image) (n : nat) :
  (∀ op, op ∈ l → depth op < n) →
  (Operations_paint (batch l) canvas).1.2
  = by_depth_descending (λ e, region_depth e.2) n (entry <$> l).
Proof.
  intros Hbound. rewrite Operations_paint_eq. simpl.
  rewrite (layers_batch l n Hbound), list_fmap_bind.
  rewrite by_depth_descending_fmap. unfold by_depth_descending.
  rewrite bind_filter_nil.
  - induction (reverse (seq 0 n)) as [|k ks IH]; [done|].
    by rewrite !bind_cons, fmap_app, <- IH.
  - intros k _ Hk. simpl. rewrite filter_none; [done|].
    intros op Hop Hd. apply Hk, list_elem_of_fmap. by exists op.
Qed.

End Batch.

(** ** The walk *)

Section Walk.
Context {G : Shapely} {U : OcrdUtils}.

Lemma extends_refl (self : PageXmlRenderer) : extends [] self self.
Proof.
  unfold extends. split_and!; try done.
  - intros k v Hs Hn. congruence.
  - by exists [].
Qed.

Lemma extends_trans (w1 w2 : list RegionWithCoords)
  (a b c : PageXmlRenderer) :
  extends w1 a b → extends w2 b c → extends (w1 ++ w2) a c.
Proof.
  intros (Hc1 & Ht1 & Hp1 & Hsub1 & Hnew1 & Hlog1 & l1 & Hop1 & Hl1)
         (Hc2 & Ht2 & Hp2 & Hsub2 & Hnew2 & Hlog2 & l2 & Hop2 & Hl2).
  unfold extends. split_and!; try congruence.
  - by etrans.
  - intros k v Hk Hnone.
    destruct (colors b !! k) as [v'|] eqn:Hb.
    + pose proof (lookup_weaken _ _ _ _ Hb Hsub2) as Hk'.
      assert (v = v') as -> by congruence.
      destruct (Hnew1 k v' Hb Hnone) as (? & r & Hr & ?).
      split; [done|]. exists r. split; [|done].
      apply elem_of_app. by left.
    + destruct (Hnew2 k v Hk Hb) as (? & r & Hr & ?).
      split; [done|]. exists r. split; [|done].
      apply elem_of_app. by right.
  - by etrans.
  - exists (l1 ++ l2). split.
    + by rewrite foldl_app, <- Hop1.
    + rewrite fmap_app. by apply sublist_app.
Qed.

Lemma extends_weaken (w w' : list RegionWithCoords)
  (a b : PageXmlRenderer) :
  w `sublist_of` w' → extends w a b → extends w' a b.
Proof.
  intros Hw (Hc & Ht & Hp & Hsub & Hnew & Hlog & l & Hop & Hl).
  unfold extends. split_and!; try done.
  - intros k v Hk Hnone. destruct (Hnew k v Hk Hnone) as (? & r & Hr & ?).
    split; [done|]. exists r. split; [|done]. by eapply elem_of_sublist.
  - exists l. split; [done|]. by etrans.
Qed.

Lemma walks_weaken {A : Type} (m : M A) (w w' : list RegionWithCoords) :
  w `sublist_of` w' → walks m w → walks m w'.
Proof. intros Hw Hm self. eapply extends_weaken; [done | apply Hm]. Qed.

Lemma walks_ret {A : Type} (a : A) : walks (mret a) [].
Proof. intros self. apply extends_refl. Qed.

Lemma walks_bind {A B : Type} (m : M A) (f : A → M B)
  (w1 w2 : list RegionWithCoords) :
  walks m w1 → (∀ a, walks (f a) w2) → walks (m ≫= f) (w1 ++ w2).
Proof.
  intros Hm Hf self. specialize (Hm self).
  unfold mbind, M_bind. destruct (m self) as [[a|e] self']; simpl in *.
  - eapply extends_trans; [done | apply Hf].
  - eapply extends_weaken; [|done]. by apply sublist_inserts_r.
Qed.

Lemma walks_for_each {A : Type} (l : list A) (body : A → M unit)
  (f : A → list RegionWithCoords) :
  (∀ x, walks (body x) (f x)) → walks (for_each l body) (l ≫= f).
Proof.
  intros Hbody. induction l as [|x l IH]; cbn [for_each].
  - apply walks_ret.
  - rewrite bind_cons. apply walks_bind; [apply Hbody | by intros _].
Qed.

Lemma walks_segment_poly (r : RegionWithCoords) : walks (segment_poly r) [].
Proof.
  intros self.
  destruct (segment_poly_frame r self) as (Hc & Ht & Hp & Hcol & Hop & Hlog).
  unfold extends. split_and!; try done.
  - by rewrite Hcol.
  - intros k v Hk Hnone. rewrite Hcol in Hk. congruence.
  - exists []. by rewrite Hop.
Qed.

Lemma walks_plot_segment (p : Polygon) (r : RegionWithCoords) :
  walks (plot_segment p r) [r].
Proof.
  intros self. rewrite plot_segment_eq. unfold extends. simpl.
  split_and!; try done.
  - destruct (colors self !! color_key r) eqn:Hk; [done|].
    by apply insert_subseteq.
  - intros k v Hk Hnone.
    destruct (colors self !! color_key r) eqn:Hr; [congruence|].
    destruct (decide (color_key r = k)) as [<-|Hne].
    + rewrite lookup_insert_eq in Hk. split; [congruence|].
      exists r. split; [left | done].
    + rewrite lookup_insert_ne in Hk by done. congruence.
  - eexists [_]. split; [done|]. done.
Qed.

Lemma walks_render_type_body (descend : RegionWithCoords → M unit)
  (r : RegionWithCoords) (w : list RegionWithCoords) :
  (isinstance_TextRegionType r = true → walks (descend r) w) →
  walks (render_type_body descend (Some r))
        (r :: if isinstance_TextRegionType r then w else []).
Proof.
  intros Hdescend. unfold render_type_body.
  change (r :: if isinstance_TextRegionType r then w else [])
    with ([] ++ ([r] ++ if isinstance_TextRegionType r then w else [])).
  apply walks_bind; [apply walks_segment_poly|].
  intros [p|]; [|eapply walks_weaken; [|apply walks_ret]; apply sublist_nil_l].
  destruct (truthy (Some p));
    [|eapply walks_weaken; [|apply walks_ret]; apply sublist_nil_l].
  apply walks_bind; [apply walks_plot_segment|]. intros _.
  destruct (isinstance_TextRegionType r); [by apply Hdescend|].
  apply walks_ret.
Qed.

Lemma walks_render_leaf (r : RegionWithCoords) :
  isinstance_TextRegionType r = false →
  walks (render_type_body (λ _, mret tt) (Some r)) [r].
Proof.
  intros Hr.
  pose proof (walks_render_type_body (λ _, mret tt) r []) as H.
  rewrite Hr in H. apply H. done.
Qed.

Lemma walks_render_text_region (r : RegionT) :
  walks (render_text_region (ARegion r)) (TextLine r ≫= walk_line).
Proof.
  unfold render_text_region. apply walks_for_each. intros line.
  change (walk_line line) with ([ATextLine line] ++ (Word line ≫= walk_word)).
  apply walks_bind; [by apply walks_render_leaf|]. intros _.
  apply walks_for_each. intros word.
  change (walk_word word) with ([AWord word] ++ (AGlyph <$> Glyph word)).
  apply walks_bind; [by apply walks_render_leaf|]. intros _.
  assert (AGlyph <$> Glyph word = Glyph word ≫= (λ g, [AGlyph g])) as ->.
  { induction (Glyph word) as [|g gs IH]; [done|].
    by rewrite fmap_cons, bind_cons, IH. }
  apply walks_for_each. intros glyph. by apply walks_render_leaf.
Qed.

Lemma walks_render_type (r : option RegionWithCoords) :
  walks (render_type r)
    (match r with
     | Some (ARegion t) => walk_region t
     | Some r => [r]
     | None => []
     end).
Proof.
  destruct r as [r|]; [|apply walks_ret].
  unfold render_type.
  destruct r as [t| | | | |];
    try (by apply walks_render_leaf).
  apply walks_render_type_body. intros _. apply walks_render_text_region.
Qed.

(** [render_all] emits operations for a subsequence of the walk, in the
    order of the walk, and touches nothing but the batch, the log and the
    fallback entries of the colour table. *)
Lemma walks_render_all (pc_gts : PcGtsT) :
  walks (render_all pc_gts) (walk pc_gts).
Proof.
  unfold render_all, walk.
  apply walks_bind.
  { pose proof (walks_render_type (APrintSpace <$> PrintSpace (Page pc_gts)))
      as H. by destruct (PrintSpace (Page pc_gts)). }
  intros _. apply walks_bind.
  { pose proof (walks_render_type (ABorder <$> Border (Page pc_gts))) as H.
    by destruct (Border (Page pc_gts)). }
  intros _. apply walks_for_each. intros region.
  apply (walks_render_type (Some (ARegion region))).
Qed.

End Walk.

(** ** The render pass *)

Section RenderPass.
Context {G : Shapely} {U : OcrdUtils}.

Lemma filter_fmap_entry (k : nat) (l : list Operation) :
  filter (λ e : RegionAndPoly, region_depth e.2 = k) (entry <$> l)
  = entry <$> filter (λ op, depth op = k) l.
Proof.
  induction l as [|op l IH]; [done|].
  rewrite fmap_cons, !filter_cons. simpl.
  change (region_depth (region op)) with (depth op).
  destruct (decide (depth op = k)); by rewrite IH.
Qed.

Lemma get_canvas_eq (self : PageXmlRenderer) :
  get_canvas self
  = (canvas self ++ (layer_drawn <$> layers (operations self)),
     layers (operations self) ≫= layer_entries,
     {| canvas := canvas self; coords := coords self;
        page_id := page_id self; colors := colors self;
        logger := logger self; operations := ∅ |}).
Proof. unfold get_canvas. by rewrite Operations_paint_eq. Qed.

(** The region map of a pass is the list of the entries of the emitted
    operations, regrouped by depth; the emitted operations follow the
    walk. *)
Lemma render_pass_regions (cv : Image) (tr : Transform) (pid : string)
  (table : option (gmap string string)) (pc_gts : PcGtsT) :
  ∃ emitted,
    operations (render_all pc_gts (PageXmlRenderer_init cv tr pid table)).2
      = batch emitted
    ∧ region <$> emitted `sublist_of` walk pc_gts
    ∧ (render_pass cv tr pid table pc_gts).1.2
      = by_depth_descending (λ e : RegionAndPoly, region_depth e.2)
          (S (max_depth region_depth (walk pc_gts))) (entry <$> emitted).
Proof.
  destruct (walks_render_all pc_gts (PageXmlRenderer_init cv tr pid table))
    as (_ & _ & _ & _ & _ & _ & l & Hop & Hl).
  exists l. split; [done|]. split; [done|].
  unfold render_pass. rewrite get_canvas_eq. simpl. rewrite Hop.
  change (foldl Operations_append ∅ l) with (batch l).
  pose proof (paint_batch_regions l [] (S (max_depth region_depth (walk pc_gts))))
    as Hpaint.
  rewrite Operations_paint_eq in Hpaint. simpl in Hpaint. apply Hpaint.
  intros op Hop'. apply (max_depth_bound region_depth (walk pc_gts) (region op)).
  eapply elem_of_sublist; [|done]. by apply list_elem_of_fmap_2.
Qed.

Lemma render_pass_sorted (cv : Image) (tr : Transform) (pid : string)
  (table : option (gmap string string)) (pc_gts : PcGtsT) :
  StronglySorted
    (λ a b : RegionAndPoly, (region_depth b.2 ≤ region_depth a.2)%nat)
    (render_pass cv tr pid table pc_gts).1.2.
Proof.
  destruct (render_pass_regions cv tr pid table pc_gts)
    as (l & _ & _ & ->).
  apply (by_depth_descending_sorted (λ e : RegionAndPoly, region_depth e.2)).
Qed.

(** C4: the region map of a render pass is ordered by non-increasing
    depth; its entries of one depth are the entries of the operations of
    that depth in the order they were emitted, which is the order of the
    walk; and whatever was rejected, the recorded regions are a
    subsequence of one list that is fixed by the tree, the walk regrouped
    by depth. *)
Theorem C4_region_map_order (cv : Image) (tr : Transform) (pid : string)
  (table : option (gmap string string)) (pc_gts : PcGtsT) :
  let rm := (render_pass cv tr pid table pc_gts).1.2 in
  StronglySorted
    (λ a b : RegionAndPoly, (region_depth b.2 ≤ region_depth a.2)%nat) rm
  ∧ (∃ emitted,
       operations (render_all pc_gts (PageXmlRenderer_init cv tr pid table)).2
         = batch emitted
       ∧ region <$> emitted `sublist_of` walk pc_gts
       ∧ ∀ k, filter (λ e : RegionAndPoly, region_depth e.2 = k) rm
              = entry <$> filter (λ op, depth op = k) emitted)
  ∧ rm.*2 `sublist_of` reference_order pc_gts.
Proof.
  intros rm. split; [apply render_pass_sorted|].
  destruct (render_pass_regions cv tr pid table pc_gts)
    as (l & Hop & Hl & Hrm).
  fold rm in Hrm. split.
  - exists l. split; [done|]. split; [done|]. intros k.
    rewrite <- filter_fmap_entry, Hrm.
    set (n := S (max_depth region_depth (walk pc_gts))).
    destruct (decide (k < n)) as [Hk|Hk].
    + by apply by_depth_descending_filter.
    + assert (∀ op, op ∈ l → depth op < n) as Hbound.
      { intros op Hop'.
        apply (max_depth_bound region_depth (walk pc_gts) (region op)).
        eapply elem_of_sublist; [|done]. by apply list_elem_of_fmap_2. }
      trans (@nil RegionAndPoly); [|symmetry]; apply filter_none.
      * intros e [(op & -> & Hin)%list_elem_of_fmap _]%elem_of_by_depth_descending.
        simpl. change (region_depth (region op)) with (depth op).
        specialize (Hbound op Hin). lia.
      * intros e (op & -> & Hin)%list_elem_of_fmap. simpl.
        change (region_depth (region op)) with (depth op).
        specialize (Hbound op Hin). lia.
  - rewrite Hrm. unfold reference_order.
    set (n := S (max_depth region_depth (walk pc_gts))).
    assert ((by_depth_descending (λ e : RegionAndPoly, region_depth e.2) n
               (entry <$> l)).*2
            = by_depth_descending region_depth n (region <$> l)) as ->.
    { rewrite !by_depth_descending_fmap, <- list_fmap_compose. done. }
    by apply by_depth_descending_sublist.
Qed.

(** C3, as the code has it: in the region map of a render pass, when the
    polygons of two recorded entries A, of depth d, and B, of depth d+1,
    both contain the point and neither type is in the ignore set in
    force, [find_region] returns the first recorded entry that contains
    the point and is not ignored.  That entry has depth at least d+1, so
    it is never A; it is B as soon as B is the only such entry of depth
    d+1 or more. *)
Theorem C3_deepest_match_wins (cv : Image) (tr : Transform) (pid : string)
  (table : option (gmap string string)) (pc_gts : PcGtsT)
  (polyA polyB : Polygon) (A B : RegionWithCoords) (x y : Q)
  (ig : option (list PageClass)) :
  let rm := (render_pass cv tr pid table pc_gts).1.2 in
  let ignore := py_or ig default_ignore in
  (polyA, A) ∈ rm → (polyB, B) ∈ rm →
  region_depth B = S (region_depth A) →
  matches (x, y) ignore (polyA, A) →
  matches (x, y) ignore (polyB, B) →
  ∃ poly r,
    find_region rm x y ig = Some r
    ∧ (poly, r) ∈ rm ∧ matches (x, y) ignore (poly, r)
    ∧ (region_depth B ≤ region_depth r)%nat
    ∧ r ≠ A
    ∧ ((∀ poly' r', (poly', r') ∈ rm → matches (x, y) ignore (poly', r') →
          (region_depth B ≤ region_depth r')%nat → r' = B) →
       r = B).
Proof.
  intros rm ignore HA HB Hdepth HmA HmB.
  pose proof (render_pass_sorted cv tr pid table pc_gts) as Hsorted.
  fold rm in Hsorted.
  destruct (find_region rm x y ig) as [r|] eqn:Hfind.
  - unfold find_region in Hfind. fold ignore in Hfind.
    apply find_region_loop_first in Hfind
      as (l1 & poly & l2 & Hrm & Hm & Hl1).
    assert ((poly, r) ∈ rm) as Hin by (rewrite Hrm; set_solver).
    assert (region_depth B ≤ region_depth r)%nat as Hle.
    { rewrite Hrm in HB, Hsorted.
      apply elem_of_app in HB as [HB|HB].
      - rewrite Forall_forall in Hl1. destruct (Hl1 _ HB HmB).
      - apply elem_of_cons in HB as [[= <- <-]|HB]; [done|].
        apply StronglySorted_app_1_r, StronglySorted_cons in Hsorted
          as [Hall _].
        eapply Forall_forall in Hall; [|exact HB]. done. }
    exists poly, r. split_and!; try done.
    + intros ->. lia.
    + intros Honly. by eapply Honly.
  - unfold find_region in Hfind. fold ignore in Hfind.
    apply find_region_loop_None in Hfind.
    rewrite Forall_forall in Hfind. destruct (Hfind _ HB HmB).
Qed.

End RenderPass.

(** On the example page with a word, the point (30, 15) lies in the word
    (depth 6) and in its line (depth 5). *)
Lemma C3_witness :
  ∃ poly r,
    find_region Example.region_map_w 30 15 None = Some r
    ∧ (poly, r) ∈ Example.region_map_w
    ∧ matches (30%Q, 15%Q) default_ignore (poly, r)
    ∧ (region_depth (AWord (mkWord Example.word_el [])) ≤ region_depth r)%nat
    ∧ r ≠ ATextLine Example.line_w
    ∧ ((∀ poly' r', (poly', r') ∈ Example.region_map_w →
          matches (30%Q, 15%Q) default_ignore (poly', r') →
          (region_depth (AWord (mkWord Example.word_el []))
           ≤ region_depth r')%nat →
          r' = AWord (mkWord Example.word_el [])) →
       r = AWord (mkWord Example.word_el [])).
Proof.
  apply (@C3_deepest_match_wins Kernel.shapely Kernel.ocrd_utils
           [] tt "p1" None Example.pc_gts_w
           (Coords Example.line_el) (Coords Example.word_el)
           (ATextLine Example.line_w) (AWord (mkWord Example.word_el []))
           30 15 None).
  - apply list_elem_of_In. vm_compute. tauto.
  - apply list_elem_of_In. vm_compute. tauto.
  - by vm_compute.
  - split; [by vm_compute|]. simpl. unfold default_ignore. set_solver.
  - split; [by vm_compute|]. simpl. unfold default_ignore. set_solver.
Defined.

(** On the same page the region (depth 4) and its line (depth 5) both
    contain the point (30, 15), and [find_region] returns the word. *)
Lemma C3_counterexample :
  ((Example.region_poly, ARegion Example.text_region_w)
     ∈ Example.region_map_w
   ∧ ((Coords Example.line_el : @Polygon Kernel.shapely),
      ATextLine Example.line_w) ∈ Example.region_map_w
   ∧ region_depth (ATextLine Example.line_w)
     = S (region_depth (ARegion Example.text_region_w))
   ∧ matches (30%Q, 15%Q) default_ignore
       (Example.region_poly, ARegion Example.text_region_w)
   ∧ matches (30%Q, 15%Q) default_ignore
       ((Coords Example.line_el : @Polygon Kernel.shapely),
        ATextLine Example.line_w))
  ∧ find_region Example.region_map_w 30 15 None
    ≠ Some (ATextLine Example.line_w).
Proof.
  split; [split_and!|].
  - apply list_elem_of_In. vm_compute. tauto.
  - apply list_elem_of_In. vm_compute. tauto.
  - by vm_compute.
  - split; [by vm_compute|]. simpl. unfold default_ignore. set_solver.
  - split; [by vm_compute|]. simpl. unfold default_ignore. set_solver.
  - vm_compute. discriminate.
Qed.

(** With the caller's table, which does not register "Border", the pass
    over the example page adds the key. *)
Lemma C9_counterexample :
  colors (@render_pass Kernel.shapely Kernel.ocrd_utils [] tt "p1"
            (Some Example.custom_colors) Example.pc_gts).2
  ≠ colors (Example.renderer (Some Example.custom_colors)).
Proof.
  intros H.
  apply (f_equal (λ m : gmap string string, m !! "Border")) in H.
  vm_compute in H. discriminate H.
Qed.

(** ** The page with a border, a text region and a line *)

Section Scenario.
Context {G : Shapely} {U : OcrdUtils}.

Lemma validated_reason (p : Polygon) :
  validated p → validity_reason p = EmptyString.
Proof.
  intros (Hv & He & Hx & Hy & Hl). unfold validity_reason.
  rewrite Hv, He. simpl.
  apply float_lt_false in Hx, Hy, Hl. by rewrite Hx, Hy, Hl.
Qed.

(** A segment whose points make a polygon that passes every test is
    accepted, silently. *)
Lemma segment_poly_accept (r : RegionWithCoords) (self : PageXmlRenderer)
  (p : Polygon) :
  Polygon_new (coordinates_of_segment (element r) (coords self)) = Return p →
  validated p →
  segment_poly r self = (Return (Some p), self).
Proof.
  intros Hnew Hp. rewrite segment_poly_eq. unfold try_polygon.
  rewrite Hnew, (validated_reason p Hp).
  by rewrite bool_decide_eq_false_2 by (intros H; by apply H).
Qed.

Lemma render_type_body_accept (descend : RegionWithCoords → M unit)
  (r : RegionWithCoords) (self : PageXmlRenderer) (p : Polygon) :
  Polygon_new (coordinates_of_segment (element r) (coords self)) = Return p →
  validated p →
  render_type_body descend (Some r) self
  = if isinstance_TextRegionType r
    then descend r (plot_segment p r self).2
    else (Return tt, (plot_segment p r self).2).
Proof.
  intros Hnew Hp. unfold render_type_body, mbind, M_bind.
  rewrite (segment_poly_accept r self p Hnew Hp).
  destruct Hp as (_ & He & _). simpl. rewrite He. simpl.
  rewrite plot_segment_eq. simpl.
  by destruct (isinstance_TextRegionType r).
Qed.

(** C5, as the code has it: on the page whose border, text region and
    line have the polygons of the scenario, and with a geometry library
    that accepts the three, rendering emits exactly three operations.  The
    border and the text region are both children of the page and have the
    same depth, 4 (the breadcrumbs being None, PcGts, Page and the node);
    the line has depth 5.  There are two layers: the line is painted and
    composited first, the layer that holds the border and the text region
    last. *)
Theorem C5_border_region_line (cv : Image) (tr : Transform) (pid : string)
  (table : option (gmap string string)) (pB pR pL : Polygon) :
  Polygon_new (coordinates_of_segment Example.border tr) = Return pB →
  validated pB →
  Polygon_new (coordinates_of_segment Example.region_el tr) = Return pR →
  validated pR →
  Polygon_new (coordinates_of_segment Example.line_el tr) = Return pL →
  validated pL →
  ∃ opB opR opL,
    entry opB = (pB, ABorder Example.border)
    ∧ entry opR = (pR, ARegion Example.text_region)
    ∧ entry opL = (pL, ATextLine Example.line)
    ∧ depth opB = 4%nat ∧ depth opR = 4%nat ∧ depth opL = 5%nat
    ∧ operations
        (render_all Example.pc_gts (PageXmlRenderer_init cv tr pid table)).2
      = batch [opB; opR; opL]
    ∧ layers (batch [opB; opR; opL]) = [(5%nat, [opL]); (4%nat, [opB; opR])]
    ∧ (render_pass cv tr pid table Example.pc_gts).1
      = (cv ++ [[drawn opL]; [drawn opB; drawn opR]],
         [entry opL; entry opB; entry opR]).
Proof.
  intros HnB HvB HnR HvR HnL HvL.
  set (self0 := PageXmlRenderer_init cv tr pid table).
  set (self1 := (plot_segment pB (ABorder Example.border) self0).2).
  set (self2 := (plot_segment pR (ARegion Example.text_region) self1).2).
  set (self3 := (plot_segment pL (ATextLine Example.line) self2).2).
  assert (coords self1 = tr) as Hc1
    by (unfold self1; by rewrite plot_segment_eq).
  assert (coords self2 = tr) as Hc2
    by (unfold self2; by rewrite plot_segment_eq).
  assert (render_all Example.pc_gts self0 = (Return tt, self3)) as Hrun.
  { unfold render_all, render_type, Example.pc_gts.
    cbn [Page PrintSpace Border AllRegions fmap option_fmap option_map
         for_each].
    unfold mbind at 1. unfold M_bind at 1.
    change (render_type_body render_text_region None self0)
      with (Return tt, self0).
    cbv iota.
    unfold mbind at 1. unfold M_bind at 1.
    rewrite (render_type_body_accept _ (ABorder Example.border) self0 pB);
      [|done|done].
    cbn [isinstance_TextRegionType]. fold self1.
    unfold mbind at 1. unfold M_bind at 1.
    rewrite (render_type_body_accept _ (ARegion Example.text_region) self1 pR);
      [|by rewrite Hc1|done].
    fold self2.
    assert (isinstance_TextRegionType (ARegion Example.text_region) = true)
      as -> by done.
    unfold render_text_region, Example.text_region.
    cbn [get_TextLine TextLine for_each].
    unfold mbind at 1. unfold M_bind at 1.
    unfold mbind at 1. unfold M_bind at 1.
    rewrite (render_type_body_accept _ (ATextLine Example.line) self2 pL);
      [|by rewrite Hc2|done].
    cbn [isinstance_TextRegionType]. fold self3.
    reflexivity. }
  set (opB := operation_of pB (ABorder Example.border)
                (default "FF0000FF"
                   (colors self0 !! color_key (ABorder Example.border)))).
  set (opR := operation_of pR (ARegion Example.text_region)
                (default "FF0000FF"
                   (colors self1 !! color_key (ARegion Example.text_region)))).
  set (opL := operation_of pL (ATextLine Example.line)
                (default "FF0000FF"
                   (colors self2 !! color_key (ATextLine Example.line)))).
  assert (operations self3 = batch [opB; opR; opL]) as Hops.
  { unfold self3. rewrite plot_segment_eq. cbn [snd operations].
    unfold self2 at 1. rewrite plot_segment_eq. cbn [snd operations].
    unfold self1 at 1. rewrite plot_segment_eq. cbn [snd operations].
    reflexivity. }
  assert (canvas self3 = cv) as Hcv.
  { unfold self3, self2, self1. by rewrite !plot_segment_eq. }
  assert (layers (batch [opB; opR; opL])
          = [(5%nat, [opL]); (4%nat, [opB; opR])]) as Hlayers.
  { rewrite (layers_batch _ 6).
    - reflexivity.
    - intros op. rewrite !elem_of_cons, elem_of_nil.
      intros [->|[->|[->|[]]]]; vm_compute; lia. }
  exists opB, opR, opL.
  do 6 (split; [reflexivity|]).
  split; [by rewrite Hrun|]. split; [exact Hlayers|].
  unfold render_pass. fold self0. rewrite Hrun. cbn [snd].
  rewrite get_canvas_eq. cbn [fst]. by rewrite Hops, Hlayers, Hcv.
Qed.

End Scenario.

(** The integer kernel accepts the three rectangles of the scenario. *)
Lemma C5_witness :
  ∃ opB opR opL,
    entry opB = (Example.border_poly, ABorder Example.border)
    ∧ entry opR = (Example.region_poly, ARegion Example.text_region)
    ∧ entry opL = ((Coords Example.line_el : @Polygon Kernel.shapely),
                   ATextLine Example.line)
    ∧ depth opB = 4%nat ∧ depth opR = 4%nat ∧ depth opL = 5%nat
    ∧ operations (render_all Example.pc_gts (Example.renderer None)).2
      = batch [opB; opR; opL]
    ∧ layers (batch [opB; opR; opL]) = [(5%nat, [opL]); (4%nat, [opB; opR])]
    ∧ (@render_pass Kernel.shapely Kernel.ocrd_utils [] tt "p1" None
         Example.pc_gts).1
      = ([] ++ [[drawn opL]; [drawn opB; drawn opR]],
         [entry opL; entry opB; entry opR]).
Proof.
  apply (@C5_border_region_line Kernel.shapely Kernel.ocrd_utils
           [] tt "p1" None).
  - by vm_compute.
  - unfold validated. split_and!; by vm_compute.
  - by vm_compute.
  - unfold validated. split_and!; by vm_compute.
  - by vm_compute.
  - unfold validated. split_and!; by vm_compute.
Defined.

(** The layers of the scenario are not three layers of depths 3, 2 and 1
    with the border alone in the last one. *)
Lemma C5_counterexample :
  (λ layer : nat * list (@Operation Kernel.shapely),
     (layer.1, (λ op, type (region op)) <$> layer.2))
    <$> layers (operations
                  (render_all Example.pc_gts (Example.renderer None)).2)
  ≠ [(3%nat, [TextLineType]); (2%nat, [TextRegionType]);
     (1%nat, [BorderType])].
Proof. vm_compute. discriminate. Qed.

(** ** The colour table during a pass *)

Section ColorTable.
Context {G : Shapely} {U : OcrdUtils}.

Lemma after_lookups_nil (before : gmap string string) (k : string) :
  after_lookups before [] k = before !! k.
Proof.
  unfold after_lookups. destruct (before !! k); [done|].
  rewrite bool_decide_eq_false_2; [done | apply not_elem_of_nil].
Qed.

Lemma tracks_refl (self : PageXmlRenderer) : tracks self self.
Proof.
  exists []. split; [done|]. intros k. by rewrite after_lookups_nil.
Qed.

Lemma tracks_trans (a b c : PageXmlRenderer) :
  tracks a b → tracks b c → tracks a c.
Proof.
  intros (l1 & Hop1 & Hcol1) (l2 & Hop2 & Hcol2).
  exists (l1 ++ l2). split; [by rewrite foldl_app, <- Hop1|].
  intros k. rewrite Hcol2. unfold after_lookups at 1. rewrite Hcol1.
  unfold after_lookups, looked_up_keys. rewrite fmap_app.
  destruct (colors a !! k); [done|].
  case_bool_decide as H1.
  - rewrite bool_decide_eq_true_2; [done|]. apply elem_of_app. by left.
  - case_bool_decide as H2.
    + rewrite bool_decide_eq_true_2; [done|]. apply elem_of_app. by right.
    + rewrite bool_decide_eq_false_2; [done|].
      intros [?|?]%elem_of_app; tauto.
Qed.

Lemma tracking_ret {A : Type} (a : A) : tracking (mret a).
Proof. intros self. apply tracks_refl. Qed.

Lemma tracking_bind {A B : Type} (m : M A) (f : A → M B) :
  tracking m → (∀ a, tracking (f a)) → tracking (m ≫= f).
Proof.
  intros Hm Hf self. specialize (Hm self).
  unfold mbind, M_bind. destruct (m self) as [[a|e] self']; simpl in *.
  - eapply tracks_trans; [done | apply Hf].
  - done.
Qed.

Lemma tracking_for_each {A : Type} (l : list A) (body : A → M unit) :
  (∀ x, tracking (body x)) → tracking (for_each l body).
Proof.
  intros Hbody. induction l as [|x l IH]; cbn [for_each].
  - apply tracking_ret.
  - apply tracking_bind; [apply Hbody | by intros _].
Qed.

Lemma tracking_segment_poly (r : RegionWithCoords) :
  tracking (segment_poly r).
Proof.
  intros self.
  destruct (segment_poly_frame r self) as (_ & _ & _ & Hcol & Hop & _).
  exists []. split; [done|]. intros k.
  by rewrite after_lookups_nil, Hcol.
Qed.

(** [plot_segment] reads the table under the key of the region and
    appends one operation. *)
Lemma tracking_plot_segment (p : Polygon) (r : RegionWithCoords) :
  tracking (plot_segment p r).
Proof.
  intros self. rewrite plot_segment_eq.
  eexists [_]. split; [done|]. intros k. cbn [snd colors].
  unfold after_lookups, looked_up_keys. cbn [fmap list_fmap region operation_of].
  destruct (decide (k = color_key r)) as [->|Hne].
  - destruct (colors self !! color_key r) as [v|] eqn:Hk.
    + by rewrite Hk.
    + rewrite lookup_insert_eq, bool_decide_eq_true_2; [done | left].
  - assert (match colors self !! color_key r with
            | Some _ => colors self
            | None => <[color_key r:="FF0000FF"]> (colors self)
            end !! k = colors self !! k) as ->.
    { destruct (colors self !! color_key r); [done|].
      by rewrite lookup_insert_ne. }
    destruct (colors self !! k); [done|].
    rewrite bool_decide_eq_false_2; [done|].
    intros [?|?%elem_of_nil]%elem_of_cons; done.
Qed.

Lemma tracking_render_type_body (descend : RegionWithCoords → M unit)
  (r : option RegionWithCoords) :
  (∀ x, tracking (descend x)) → tracking (render_type_body descend r).
Proof.
  intros Hdescend. destruct r as [r|]; [|apply tracking_ret].
  unfold render_type_body.
  apply tracking_bind; [apply tracking_segment_poly|].
  intros [p|]; [|apply tracking_ret].
  destruct (truthy (Some p)); [|apply tracking_ret].
  apply tracking_bind; [apply tracking_plot_segment|]. intros _.
  destruct (isinstance_TextRegionType r); [apply Hdescend | apply tracking_ret].
Qed.

Lemma tracking_render_text_region (r : RegionWithCoords) :
  tracking (render_text_region r).
Proof.
  unfold render_text_region. apply tracking_for_each. intros line.
  apply tracking_bind.
  { apply tracking_render_type_body. intros _. apply tracking_ret. }
  intros _. apply tracking_for_each. intros word.
  apply tracking_bind.
  { apply tracking_render_type_body. intros _. apply tracking_ret. }
  intros _. apply tracking_for_each. intros glyph.
  apply tracking_render_type_body. intros _. apply tracking_ret.
Qed.

(** During [render_all] the colour table is read under the key of every
    region that is plotted, and under no other key. *)
Lemma tracking_render_all (pc_gts : PcGtsT) : tracking (render_all pc_gts).
Proof.
  unfold render_all, render_type.
  apply tracking_bind.
  { apply tracking_render_type_body, tracking_render_text_region. }
  intros _. apply tracking_bind.
  { apply tracking_render_type_body, tracking_render_text_region. }
  intros _. apply tracking_for_each. intros region.
  apply tracking_render_type_body, tracking_render_text_region.
Qed.

(** The regions recorded by [paint] are the regions of the batch. *)
Lemma elem_of_paint_batch (l : list Operation) (cv : Image)
  (e : RegionAndPoly) :
  e ∈ (Operations_paint (batch l) cv).1.2 ↔ e ∈ entry <$> l.
Proof.
  rewrite (paint_batch_regions l cv (S (max_depth depth l))).
  - rewrite elem_of_by_depth_descending. split; [tauto|].
    intros He. split; [done|].
    apply list_elem_of_fmap in He as (op & -> & Hop).
    apply (max_depth_bound depth l op Hop).
  - intros op Hop. apply (max_depth_bound depth l op Hop).
Qed.

(** C9, as the code has it: the colour table after a render pass is the
    table before it, with the fallback colour stored under the key of
    every region recorded in the region map (the regions visited and
    validated) whose key was missing; no entry is changed or removed and
    no other key is added.  So the table is unchanged exactly when the
    type of every recorded region was registered. *)
Theorem C9_color_table_gains_exactly_the_fallbacks (cv : Image)
  (tr : Transform) (pid : string) (table : option (gmap string string))
  (pc_gts : PcGtsT) :
  let before := colors (PageXmlRenderer_init cv tr pid table) in
  let rm := (render_pass cv tr pid table pc_gts).1.2 in
  let after := colors (render_pass cv tr pid table pc_gts).2 in
  (∀ k, after !! k
        = after_lookups before ((λ e : RegionAndPoly, color_key e.2) <$> rm) k)
  ∧ before ⊆ after
  ∧ (after = before
     ↔ ∀ e : RegionAndPoly, e ∈ rm → is_Some (before !! color_key e.2)).
Proof.
  intros before rm after.
  destruct (tracking_render_all pc_gts (PageXmlRenderer_init cv tr pid table))
    as (l & Hop & Hcol).
  assert (after = colors
            (render_all pc_gts (PageXmlRenderer_init cv tr pid table)).2)
    as Hafter.
  { unfold after, render_pass. by rewrite get_canvas_eq. }
  assert (∀ e, e ∈ rm ↔ e ∈ entry <$> l) as Hrm.
  { intros e. unfold rm, render_pass, get_canvas. rewrite Hop.
    change (foldl Operations_append (operations
              (PageXmlRenderer_init cv tr pid table)) l) with (batch l).
    pose proof (elem_of_paint_batch l
      (canvas (render_all pc_gts (PageXmlRenderer_init cv tr pid table)).2) e)
      as He.
    destruct (Operations_paint (batch l) _) as [[cv' rm'] ops'].
    exact He. }
  assert (∀ k, k ∈ (λ e : RegionAndPoly, color_key e.2) <$> rm
               ↔ k ∈ looked_up_keys l) as Hkeys.
  { intros k. unfold looked_up_keys. rewrite !list_elem_of_fmap. split.
    - intros (e & -> & (op & -> & Hin)%Hrm%list_elem_of_fmap).
      by exists op.
    - intros (op & -> & Hin). exists (entry op). split; [done|].
      apply Hrm. by apply list_elem_of_fmap_2. }
  assert (∀ k, after !! k
               = after_lookups before
                   ((λ e : RegionAndPoly, color_key e.2) <$> rm) k) as Hexact.
  { intros k. rewrite Hafter, Hcol. unfold after_lookups. fold before.
    destruct (before !! k); [done|].
    by rewrite (bool_decide_ext _ _ (Hkeys k)). }
  split; [exact Hexact|]. split.
  - apply map_subseteq_spec. intros k v Hk.
    rewrite Hexact. unfold after_lookups. by rewrite Hk.
  - split.
    + intros Heq e He.
      destruct (before !! color_key e.2) as [v|] eqn:Hk; [by eexists|].
      pose proof (Hexact (color_key e.2)) as Hx.
      unfold after_lookups in Hx. rewrite Heq, Hk in Hx.
      rewrite bool_decide_eq_true_2 in Hx; [done|].
      by apply (list_elem_of_fmap_2 (λ e : RegionAndPoly, color_key e.2)).
    + intros Hreg. apply map_eq. intros k. rewrite Hexact.
      unfold after_lookups. destruct (before !! k) eqn:Hk; [done|].
      rewrite bool_decide_eq_false_2; [done|].
      intros (e & -> & He)%list_elem_of_fmap.
      destruct (Hreg e He) as [v Hv]. congruence.
Qed.

End ColorTable.

(** On the example page: with the caller's table, which does not know
    borders, the pass stores the fallback under "Border" and keeps the
    three entries; with the built-in table nothing is stored. *)
Lemma C9_witness :
  (colors (@render_pass Kernel.shapely Kernel.ocrd_utils [] tt "p1"
             (Some Example.custom_colors) Example.pc_gts).2 !! "Border"
   = Some "FF0000FF"
   ∧ colors (Example.renderer (Some Example.custom_colors))
     ⊆ colors (@render_pass Kernel.shapely Kernel.ocrd_utils [] tt "p1"
                 (Some Example.custom_colors) Example.pc_gts).2)
  ∧ colors (@render_pass Kernel.shapely Kernel.ocrd_utils [] tt "p1"
              None Example.pc_gts).2
    = colors (Example.renderer None).
Proof.
  split.
  - destruct (@C9_color_table_gains_exactly_the_fallbacks Kernel.shapely
                Kernel.ocrd_utils [] tt "p1"
                (Some Example.custom_colors) Example.pc_gts)
      as (H1 & H2 & _).
    split; [|exact H2]. rewrite H1. by vm_compute.
  - destruct (@C9_color_table_gains_exactly_the_fallbacks Kernel.shapely
                Kernel.ocrd_utils [] tt "p1" None Example.pc_gts)
      as (_ & _ & H3).
    apply H3. intros e He. apply list_elem_of_In in He.
    vm_compute in He.
    destruct He as [<-|[<-|[<-|[]]]]; vm_compute; eauto.
Defined.

(** * Further properties of the module *)

Section MoreFindRegion.
Context {G : Shapely}.

(** X1: [find_region] returns the region of the first recorded entry, in
    insertion order, whose polygon contains the point and whose type is
    not in the ignore list in force; every entry recorded before it fails
    one of the two tests. *)
Theorem X1_find_region_first_match (rm : RegionMap) (x y : Q)
  (ig : option (list PageClass)) (r : RegionWithCoords) :
  find_region rm x y ig = Some r ↔
  ∃ l1 poly l2,
    rm = l1 ++ (poly, r) :: l2
    ∧ matches (x, y) (py_or ig default_ignore) (poly, r)
    ∧ Forall (λ e, ¬ matches (x, y) (py_or ig default_ignore) e) l1.
Proof. apply find_region_loop_first. Qed.

Lemma find_region_loop_snoc (rm : RegionMap) (p : Q * Q)
  (ig : list PageClass) (e : RegionAndPoly) :
  find_region_loop (rm ++ [e]) p ig
  = match find_region_loop rm p ig with
    | Some r => Some r
    | None => if bool_decide (matches p ig e) then Some e.2 else None
    end.
Proof.
  induction rm as [|e' rm IH].
  - simpl app. rewrite find_region_loop_cons. by case_bool_decide.
  - rewrite <- app_comm_cons, !find_region_loop_cons.
    destruct (bool_decide (matches p ig e')); [done | exact IH].
Qed.

(** X2: recording one more entry never changes the answer to a query that
    already had one: the new entry is returned only for the points where
    nothing was found before, and only if it contains the point and is
    not ignored. *)
Theorem X2_append_keeps_earlier_hits (rm : RegionMap) (poly : Polygon)
  (region : RegionWithCoords) (x y : Q) (ig : option (list PageClass)) :
  find_region (RegionMap_append rm poly region) x y ig
  = match find_region rm x y ig with
    | Some r => Some r
    | None =>
        if bool_decide (matches (x, y) (py_or ig default_ignore)
                          (poly, region))
        then Some region else None
    end.
Proof. unfold find_region, RegionMap_append. apply find_region_loop_snoc. Qed.

End MoreFindRegion.

Section MoreRenderer.
Context {G : Shapely} {U : OcrdUtils}.

(** X3: [get_canvas] uses the batch up.  Called again without rendering
    in between, it returns the canvas without any overlay and an empty
    region map; the canvas kept by the renderer is never painted on. *)
Theorem X3_get_canvas_twice (self : PageXmlRenderer) :
  get_canvas (get_canvas self).2
  = (canvas self, [], (get_canvas self).2)
  ∧ canvas (get_canvas self).2 = canvas self
  ∧ operations (get_canvas self).2 = ∅.
Proof.
  rewrite !get_canvas_eq. cbn [snd canvas operations coords page_id colors
                               logger].
  assert (layers (∅ : gmap nat (list Operation)) = []) as ->
    by (by vm_compute).
  simpl. by rewrite app_nil_r.
Qed.

(** X4: the colour table of a new renderer is the built-in table when no
    table or an empty one is passed; a non-empty table is taken as it is,
    the built-in entries are not merged into it: a key it does not
    register is missing, also when the built-in table has it. *)
Theorem X4_custom_table_replaces_builtin (cv : Image) (tr : Transform)
  (pid : string) (t : gmap string string) :
  t ≠ ∅ →
  colors (PageXmlRenderer_init cv tr pid (Some t)) = t
  ∧ (∀ k, t !! k = None →
       colors (PageXmlRenderer_init cv tr pid (Some t)) !! k = None)
  ∧ colors (PageXmlRenderer_init cv tr pid (Some ∅)) = CLASSES
  ∧ colors (PageXmlRenderer_init cv tr pid None) = CLASSES.
Proof.
  intros Ht. unfold PageXmlRenderer_init, dict_update, colors_or.
  cbn [colors].
  rewrite (decide_False (P := t = ∅)) by done.
  rewrite (decide_True (P := (∅ : gmap string string) = ∅)) by done.
  rewrite !(right_id_L ∅ (∪)). done.
Qed.

(** X5: an exception of the polygon constructor that is no [ValueError]
    is not caught: [segment_poly] raises it, and so does [render_all],
    which stops at the first node, here the print space; nothing is
    logged and no node of the page is painted. *)
Theorem X5_other_exception_aborts_the_pass (pc_gts : PcGtsT)
  (self : PageXmlRenderer) (ps : Element) (cls msg : string) :
  PrintSpace (Page pc_gts) = Some ps →
  Polygon_new (coordinates_of_segment ps (coords self))
    = Raise (OtherError cls msg) →
  segment_poly (APrintSpace ps) self = (Raise (OtherError cls msg), self)
  ∧ render_all pc_gts self = (Raise (OtherError cls msg), self).
Proof.
  intros Hps Hnew.
  assert (segment_poly (APrintSpace ps) self
          = (Raise (OtherError cls msg), self)) as Hseg.
  { rewrite segment_poly_eq. unfold try_polygon. cbn [element].
    by rewrite Hnew. }
  split; [done|].
  unfold render_all, render_type. rewrite Hps. cbn [fmap option_fmap option_map].
  unfold mbind at 1. unfold M_bind at 1.
  unfold render_type_body. unfold mbind at 1. unfold M_bind at 1.
  by rewrite Hseg.
Qed.

(** X6: the reason doubles as the failure flag.  A [ValueError] whose
    message is empty makes [segment_poly] return no polygon without
    writing to the log, and [render_type] skips the node silently. *)
Theorem X6_empty_message_is_not_logged (r : RegionWithCoords)
  (self : PageXmlRenderer) :
  Polygon_new (coordinates_of_segment (element r) (coords self))
    = Raise (ValueError EmptyString) →
  segment_poly r self = (Return None, self)
  ∧ render_type (Some r) self = (Return tt, self).
Proof.
  intros Hnew.
  assert (segment_poly r self = (Return None, self)) as Hseg.
  { rewrite segment_poly_eq. unfold try_polygon. by rewrite Hnew. }
  split; [done|].
  unfold render_type, render_type_body, mbind, M_bind. by rewrite Hseg.
Qed.

End MoreRenderer.

Lemma X4_witness :
  colors (Example.renderer (Some Example.custom_colors))
    = Example.custom_colors
  ∧ colors (Example.renderer (Some Example.custom_colors)) !! "Border" = None.
Proof.
  destruct (@X4_custom_table_replaces_builtin Kernel.shapely
              Kernel.ocrd_utils [] tt "p1" Example.custom_colors)
    as (H1 & H2 & _).
  - intros H. apply (f_equal (λ m : gmap string string, m !! "TextLine")) in H.
    vm_compute in H. discriminate H.
  - split; [exact H1|]. apply H2. by vm_compute.
Defined.

Lemma X5_witness :
  segment_poly (G:=Faulty.type_error) (U:=Kernel.ocrd_utils)
    (APrintSpace Faulty.print_space)
    (@PageXmlRenderer_init Faulty.type_error Kernel.ocrd_utils [] tt "p1" None)
  = (Raise (OtherError "TypeError" "object of type 'int' has no len()"),
     @PageXmlRenderer_init Faulty.type_error Kernel.ocrd_utils [] tt "p1" None)
  ∧ render_all (G:=Faulty.type_error) (U:=Kernel.ocrd_utils) Faulty.pc_gts
      (@PageXmlRenderer_init Faulty.type_error Kernel.ocrd_utils [] tt "p1"
         None)
    = (Raise (OtherError "TypeError" "object of type 'int' has no len()"),
       @PageXmlRenderer_init Faulty.type_error Kernel.ocrd_utils [] tt "p1"
         None).
Proof.
  apply (@X5_other_exception_aborts_the_pass Faulty.type_error
           Kernel.ocrd_utils Faulty.pc_gts _ Faulty.print_space);
    by vm_compute.
Defined.

Lemma X6_witness :
  segment_poly (G:=Faulty.silent) (U:=Kernel.ocrd_utils)
    (APrintSpace Faulty.print_space)
    (@PageXmlRenderer_init Faulty.silent Kernel.ocrd_utils [] tt "p1" None)
  = (Return None,
     @PageXmlRenderer_init Faulty.silent Kernel.ocrd_utils [] tt "p1" None)
  ∧ render_type (G:=Faulty.silent) (U:=Kernel.ocrd_utils)
      (Some (APrintSpace Faulty.print_space))
      (@PageXmlRenderer_init Faulty.silent Kernel.ocrd_utils [] tt "p1" None)
    = (Return tt,
       @PageXmlRenderer_init Faulty.silent Kernel.ocrd_utils [] tt "p1" None).
Proof.
  apply (@X6_empty_message_is_not_logged Faulty.silent Kernel.ocrd_utils).
  by vm_compute.
Defined.

(** ** Breadcrumbs *)

Lemma breadcrumbs_up_cons (e : Element) :
  breadcrumbs_up e
  = Some e :: match parent_object_ e with
              | NoAttribute => []
              | IsNone => [None]
              | Ref parent => breadcrumbs_up parent
              end.
Proof. by destruct e. Qed.

(** X7: the breadcrumbs of a node end with the node, so its depth is at
    least 1; when the node has a parent element they are the breadcrumbs
    of the parent followed by the node, one more than the parent's; two
    nodes with the same parent link have the same depth. *)
Theorem X7_breadcrumbs_extend_the_parent (r : RegionWithCoords) :
  last (get_breadcrumbs r) = Some (Some (element r))
  ∧ (1 ≤ region_depth r)%nat
  ∧ (∀ p, parent_object_ (element r) = Ref p →
       get_breadcrumbs r = reverse (breadcrumbs_up p) ++ [Some (element r)]
       ∧ region_depth r = S (List.length (breadcrumbs_up p)))
  ∧ (∀ r', parent_object_ (element r') = parent_object_ (element r) →
       region_depth r' = region_depth r).
Proof.
  unfold region_depth, get_breadcrumbs.
  rewrite (breadcrumbs_up_cons (element r)), reverse_cons.
  split; [by rewrite last_snoc|].
  split; [rewrite length_app; simpl; lia|].
  split.
  - intros p ->. split; [done|].
    rewrite length_app, length_reverse. simpl. lia.
  - intros r' Hr'. rewrite (breadcrumbs_up_cons (element r')), reverse_cons.
    rewrite Hr', !length_app, !length_reverse. done.
Qed.

Lemma X7_witness :
  (get_breadcrumbs (ATextLine Example.line)
   = reverse (breadcrumbs_up Example.region_el) ++ [Some Example.line_el]
   ∧ region_depth (ATextLine Example.line)
     = S (List.length (breadcrumbs_up Example.region_el)))
  ∧ region_depth (ABorder Example.border)
    = region_depth (ARegion Example.text_region).
Proof.
  destruct (X7_breadcrumbs_extend_the_parent (ATextLine Example.line))
    as (_ & _ & H3 & _).
  destruct (X7_breadcrumbs_extend_the_parent (ARegion Example.text_region))
    as (_ & _ & _ & H4).
  split; [by apply H3 | by apply H4].
Defined.

(** ** The page list store *)

Lemma get_row_loop_Some (rows : list Row) (k column : nat) (value : string)
  (n : nat) (row : Row) :
  get_row_loop rows k column value = Return (Some (n, row)) ↔
  ∃ i, n = (k + i)%nat ∧ rows !! i = Some row
       ∧ row !! column = Some (CellStr value)
       ∧ ∀ j r, j < i → rows !! j = Some r →
           ∃ c, r !! column = Some c ∧ c ≠ CellStr value.
Proof.
  revert k. induction rows as [|row0 rows IH]; intros k; cbn [get_row_loop].
  - split; [done|]. by intros (i & _ & ? & _).
  - destruct (row0 !! column) as [c|] eqn:Hc.
    + case_bool_decide as Hv.
      * split.
        -- intros [= <- <-]. exists 0%nat. split; [lia|].
           split; [done|]. split; [by rewrite Hc, Hv|]. intros; lia.
        -- intros (i & -> & Hi & Hrow & Hbefore).
           destruct i as [|i].
           ++ simplify_eq/=. do 3 f_equal. lia.
           ++ destruct (Hbefore 0%nat row0) as (c' & Hc' & Hne);
                [lia | done |]. congruence.
      * rewrite IH. split.
        -- intros (i & -> & Hi & Hrow & Hbefore). exists (S i).
           split; [lia|]. split; [done|]. split; [done|].
           intros [|j] r Hj Hr.
           ++ simplify_eq/=. by exists c.
           ++ apply (Hbefore j r); [lia | done].
        -- intros (i & -> & Hi & Hrow & Hbefore).
           destruct i as [|i].
           ++ simplify_eq/=; try congruence.
           ++ exists i. split; [lia|]. split; [done|]. split; [done|].
              intros j r Hj Hr. apply (Hbefore (S j) r); [lia | done].
    + split; [done|]. intros (i & -> & Hi & Hrow & Hbefore).
      destruct i as [|i].
      * simplify_eq/=; try congruence.
      * destruct (Hbefore 0%nat row0) as (c' & Hc' & _); [lia | done |].
        congruence.
Qed.

Lemma get_row_loop_None (rows : list Row) (k column : nat) (value : string) :
  get_row_loop rows k column value = Return None ↔
  Forall (λ r : Row, ∃ c, r !! column = Some c ∧ c ≠ CellStr value) rows.
Proof.
  revert k. induction rows as [|row0 rows IH]; intros k; cbn [get_row_loop].
  - split; [constructor | done].
  - rewrite Forall_cons. destruct (row0 !! column) as [c|] eqn:Hc.
    + case_bool_decide as Hv.
      * split; [done|]. intros [(c' & [= <-] & Hne) _]. done.
      * rewrite IH. split; [|tauto]. intros ?. split; [by exists c | done].
    + split; [done|]. by intros [(c' & ? & _) _].
Qed.

(** X8: [get_row_by_column_value] returns the index and the row of the
    first row whose cell in the column is the string looked for, every
    earlier row having a different cell there; it returns [(None, None)]
    exactly when every row has some other cell in that column. *)
Theorem X8_get_row_by_column_value_first_match (rows : list Row)
  (column : nat) (value : string) :
  (∀ n row,
     get_row_by_column_value rows column value = Return (Some (n, row)) ↔
     rows !! n = Some row ∧ row !! column = Some (CellStr value)
     ∧ ∀ j r, j < n → rows !! j = Some r →
         ∃ c, r !! column = Some c ∧ c ≠ CellStr value)
  ∧ (get_row_by_column_value rows column value = Return None ↔
     Forall (λ r : Row, ∃ c, r !! column = Some c ∧ c ≠ CellStr value) rows).
Proof.
  unfold get_row_by_column_value. split; [|apply get_row_loop_None].
  intros n row. rewrite get_row_loop_Some. split.
  - intros (i & -> & H). exact H.
  - intros H. by exists n.
Qed.
